(** * Image captioning pipeline: data loader, training-example generator
      and greedy decoder

    A shallow embedding of [data_loader.py] and of the pure skeleton of
    [main.py] (the training-example generator, the train and predict
    orchestration, and the greedy decoding loop), together with the
    properties of the specification that can be stated over it.

    Conventions.
    - A Python [str] is a [string]; a character is a code point below 256
      and is classified as Python classifies that code point.
    - A Python [dict] is an insertion-ordered association list with
      pairwise distinct keys ([Dict.set] keeps them so).
    - A raised exception is the [None] of an [option] result.
    - The neural network is a function from an image embedding and a padded
      index sequence to the index [np.argmax] picks. *)

From Stdlib Require Import Ascii String.
From stdpp Require Import base option list strings gmap.

(** ** Python string primitives *)

Module Py.

Definition code (c : ascii) : N := N_of_ascii c.

(** [c.isspace()] for a code point below 256. *)
Definition isspace (c : ascii) : bool :=
  let n := code c in
  ((9 <=? n) && (n <=? 13) || (28 <=? n) && (n <=? 32)
   || (n =? 133) || (n =? 160))%N.

(** [c.isalpha()] for a code point below 256 (the letter categories). *)
Definition isalpha_char (c : ascii) : bool :=
  let n := code c in
  ((65 <=? n) && (n <=? 90) || (97 <=? n) && (n <=? 122)
   || (n =? 170) || (n =? 181) || (n =? 186)
   || (192 <=? n) && (n <=? 214) || (216 <=? n) && (n <=? 246)
   || (248 <=? n) && (n <=? 255))%N.

(** [c.lower()] for a code point below 256. *)
Definition lower_char (c : ascii) : ascii :=
  let n := code c in
  if ((65 <=? n) && (n <=? 90)
      || (192 <=? n) && (n <=? 222) && negb (n =? 215))%N
  then ascii_of_N (n + 32) else c.

(** Membership in [string.punctuation]. *)
Definition punctuation (c : ascii) : bool :=
  let n := code c in
  ((33 <=? n) && (n <=? 47) || (58 <=? n) && (n <=? 64)
   || (91 <=? n) && (n <=? 96) || (123 <=? n) && (n <=? 126))%N.

Fixpoint smap (f : ascii -> ascii) (s : string) : string :=
  match s with
  | EmptyString => EmptyString
  | String c s' => String (f c) (smap f s')
  end.

Fixpoint sfilter (p : ascii -> bool) (s : string) : string :=
  match s with
  | EmptyString => EmptyString
  | String c s' => if p c then String c (sfilter p s') else sfilter p s'
  end.

Fixpoint sall (p : ascii -> bool) (s : string) : bool :=
  match s with
  | EmptyString => true
  | String c s' => p c && sall p s'
  end.

Definition is_empty (s : string) : bool :=
  match s with EmptyString => true | _ => false end.

(** [s.lower()] *)
Definition lower (s : string) : string := smap lower_char s.

(** [s.translate(str.maketrans('', '', string.punctuation))] *)
Definition strip_punctuation (s : string) : string :=
  sfilter (fun c => negb (punctuation c)) s.

(** [s.isalpha()]: every character alphabetic, and at least one character. *)
Definition isalpha (s : string) : bool := negb (is_empty s) && sall isalpha_char s.

(** What a finished word contributes to the list of pieces. *)
Definition flush (cur : string) : list string :=
  if is_empty cur then [] else [cur].

(** Splitting at runs of separator characters, empty pieces dropped. [cur]
    is the piece being read. *)
Fixpoint split_by (sep : ascii -> bool) (cur s : string) : list string :=
  match s with
  | EmptyString => flush cur
  | String c s' =>
      if sep c then flush cur ++ split_by sep EmptyString s'
      else split_by sep (cur +:+ String c EmptyString) s'
  end.

(** [s.split()] *)
Definition split (s : string) : list string := split_by isspace EmptyString s.

(** [s.split(sep)] with an explicit one-character separator: every piece is
    kept, the empty ones too. *)
Fixpoint split_sep (sep : ascii) (cur s : string) : list string :=
  match s with
  | EmptyString => [cur]
  | String c s' =>
      if Ascii.eqb c sep then cur :: split_sep sep EmptyString s'
      else split_sep sep (cur +:+ String c EmptyString) s'
  end.

(** [s.split(sep, 1)]: at most one split, at the first separator. *)
Fixpoint split1 (sep : ascii) (cur s : string) : list string :=
  match s with
  | EmptyString => [cur]
  | String c s' =>
      if Ascii.eqb c sep then [cur; s']
      else split1 sep (cur +:+ String c EmptyString) s'
  end.

(** [sep.join(l)] *)
Fixpoint join (sep : string) (l : list string) : string :=
  match l with
  | [] => EmptyString
  | [w] => w
  | w :: l' => w +:+ sep +:+ join sep l'
  end.

Fixpoint lstrip (s : string) : string :=
  match s with
  | EmptyString => EmptyString
  | String c s' => if isspace c then lstrip s' else s
  end.

Fixpoint rstrip (s : string) : string :=
  match s with
  | EmptyString => EmptyString
  | String c s' =>
      let r := rstrip s' in
      if is_empty r && isspace c then EmptyString else String c r
  end.

(** [s.strip()] *)
Definition strip (s : string) : string := rstrip (lstrip s).

(** [s.replace(old, new)] for a non-empty [old]: occurrences are replaced
    from the left and do not overlap; [skip] counts the characters of a
    replaced occurrence still to pass over. *)
Fixpoint replace_go (old new : string) (skip : nat) (s : string) : string :=
  match s with
  | EmptyString => EmptyString
  | String c s' =>
      match skip with
      | S k => replace_go old new k s'
      | 0 =>
          if String.prefix old s
          then new +:+ replace_go old new (String.length old - 1) s'
          else String c (replace_go old new 0 s')
      end
  end.

Definition replace (old new s : string) : string := replace_go old new 0 s.

End Py.

(** ** Insertion-ordered dictionaries *)

Module Dict.

Abbreviation t K V := (list (K * V)) (only parsing).

Section ops.
Context {K V : Type} `{EqDecision K}.

Definition keys (d : t K V) : list K := d.*1.

(** [d.get(k)] *)
Fixpoint get (k : K) (d : t K V) : option V :=
  match d with
  | [] => None
  | (k', v) :: d' => if decide (k' = k) then Some v else get k d'
  end.

(** [k in d] *)
Definition mem (k : K) (d : t K V) : bool := bool_decide (is_Some (get k d)).

(** [d[k] = v]: a present key keeps its place, a new key goes last. *)
Fixpoint set (k : K) (v : V) (d : t K V) : t K V :=
  match d with
  | [] => [(k, v)]
  | (k', v') :: d' =>
      if decide (k' = k) then (k, v) :: d' else (k', v') :: set k v d'
  end.

(** The dictionary a comprehension, a [dict(...)] call or a loop of
    assignments builds from [(key, value)] pairs, starting from [acc]. *)
Definition build (acc : t K V) (kvs : list (K * V)) : t K V :=
  foldl (fun d kv => set kv.1 kv.2 d) acc kvs.

End ops.

End Dict.

(** ** [data_loader.py] *)

Module DataLoader.

(** What the file system answers to [load_descriptions]: the lines of the
    captions file as the file iterator yields them ([None] when opening
    raises [FileNotFoundError]), and whether
    [os.path.join(images_dir, image_id)] exists. *)
Record FileSystem := {
  captions_lines : option (list string);
  image_exists : string -> bool
}.

(** [if image_id not in mapping: mapping[image_id] = []] and then
    [mapping[image_id].append(description)]. *)
Definition add_description (image_id description : string)
    (mapping : Dict.t string (list string)) : Dict.t string (list string) :=
  let mapping' :=
    if Dict.mem image_id mapping then mapping else Dict.set image_id [] mapping in
  Dict.set image_id (default [] (Dict.get image_id mapping') ++ [description]) mapping'.

(** The body of the [for line in f] loop of [load_descriptions]. *)
Definition load_line (fs : FileSystem) (mapping : Dict.t string (list string))
    (line : string) : Dict.t string (list string) :=
  match Py.split1 ","%char EmptyString (Py.strip line) with
  | p0 :: p1 :: _ =>
      let image_id := Py.strip p0 in
      let description := Py.strip p1 in
      if negb (image_exists fs image_id) then mapping
      else add_description image_id description mapping
  | _ => mapping
  end.

(** [load_descriptions]: the mapping and the lines printed. *)
Definition load_descriptions (captions_filepath : string) (fs : FileSystem)
    : Dict.t string (list string) * list string :=
  match captions_lines fs with
  | None => ([], ["Error: Captions file not found at " +:+ captions_filepath])
  | Some [] => ([], ["Error loading descriptions: "])
  | Some (_header :: lines) => (foldl (load_line fs) [] lines, [])
  end.

(** The body of the [for desc in desc_list] loop of [clean_descriptions]. *)
Definition clean_caption (desc : string) : string :=
  let desc := Py.split desc in
  let desc := Py.lower <$> desc in
  let desc := Py.strip_punctuation <$> desc in
  let desc := filter (fun w => Py.isalpha w = true) desc in
  Py.join " " desc.

Definition clean_list (desc_list : list string) : list string :=
  foldl (fun cleaned_list desc => cleaned_list ++ [clean_caption desc]) [] desc_list.

Definition clean_descriptions (descriptions : Dict.t string (list string))
    : Dict.t string (list string) :=
  foldl (fun cleaned kv => Dict.set kv.1 (clean_list kv.2) cleaned) [] descriptions.

Definition descriptions_to_lines (descriptions : Dict.t string (list string)) : list string :=
  foldl (fun all_desc_lines kv =>
           foldl (fun acc desc => acc ++ ["startseq " +:+ desc +:+ " endseq"])
                 all_desc_lines kv.2)
        [] descriptions.

Definition to_vocabulary (descriptions : Dict.t string (list string)) : gset string :=
  let all_desc_lines := descriptions_to_lines descriptions in
  foldl (fun vocabulary line =>
           foldl (fun voc word => voc ∪ {[word]}) vocabulary (Py.split line))
        ∅ all_desc_lines.

(** [max(len(s.split()) for s in all_desc_lines)], for a non-empty list. *)
Definition max_of (l : list nat) : nat := foldl Nat.max 0 l.

Definition max_len (descriptions : Dict.t string (list string)) : nat :=
  let all_desc_lines := descriptions_to_lines descriptions in
  if bool_decide (all_desc_lines = []) then 0
  else max_of ((fun s => length (Py.split s)) <$> all_desc_lines).

End DataLoader.

(** ** Failing loops *)

(** A [for] loop whose body may raise: the first exception ends it. *)
Fixpoint foldlM {A B} (f : A -> B -> option A) (a : A) (l : list B) : option A :=
  match l with
  | [] => Some a
  | x :: l' => a' ← f a x; foldlM f a' l'
  end.

(** ** [clean_descriptions] over a store of objects

    The dictionaries and lists [clean_descriptions] receives and builds are
    objects with an identity. A store is the list of the objects allocated
    so far, addressed by position; a [str] is an immutable value. *)

Module Heap.

Abbreviation loc := nat (only parsing).

Inductive obj :=
  | ODict (entries : Dict.t string loc)   (* a dict from str to list objects *)
  | OList (items : list string).          (* a list of str *)

Abbreviation heap := (list obj) (only parsing).

(** A fresh object: [{}] or [[]]. *)
Definition alloc (o : obj) (h : heap) : loc * heap := (length h, h ++ [o]).

(** [l.append(x)] *)
Definition list_append (l : loc) (x : string) (h : heap) : option heap :=
  match h !! l with
  | Some (OList items) => Some (<[l := OList (items ++ [x])]> h)
  | _ => None
  end.

(** [d[k] = v] *)
Definition dict_setitem (d : loc) (k : string) (v : loc) (h : heap) : option heap :=
  match h !! d with
  | Some (ODict entries) => Some (<[d := ODict (Dict.set k v entries)]> h)
  | _ => None
  end.

(** The body of the outer loop of [clean_descriptions]. The items of
    [desc_list] are those it holds when the inner loop starts; the body of
    that loop writes to [cleaned_list] only. *)
Definition clean_entry (cleaned_descriptions : loc) (h : heap) (kv : string * loc)
    : option heap :=
  let image_id := kv.1 in
  let desc_list := kv.2 in
  match h !! desc_list with
  | Some (OList descs) =>
      let '(cleaned_list, h1) := alloc (OList []) h in
      h2 ← foldlM (fun h desc =>
                     list_append cleaned_list (DataLoader.clean_caption desc) h)
                  h1 descs;
      dict_setitem cleaned_descriptions image_id cleaned_list h2
  | _ => None
  end.

(** [clean_descriptions(descriptions)]: the reference returned and the
    store afterwards. *)
Definition clean_descriptions (descriptions : loc) (h : heap) : option (loc * heap) :=
  match h !! descriptions with
  | Some (ODict entries) =>
      let '(cleaned_descriptions, h1) := alloc (ODict []) h in
      h2 ← foldlM (clean_entry cleaned_descriptions) h1 entries;
      Some (cleaned_descriptions, h2)
  | _ => None
  end.

(** The value of the list object at [l]. *)
Definition read_list (h : heap) (l : loc) : option (list string) :=
  match h !! l with
  | Some (OList items) => Some items
  | _ => None
  end.

(** An entry of a mapping with the value of its list. *)
Definition read_entry (h : heap) (kv : string * loc) : option (string * list string) :=
  items ← read_list h kv.2; Some (kv.1, items).

(** The value of the mapping at [d]: every key with the value of its list. *)
Definition read_dict (h : heap) (d : loc) : option (Dict.t string (list string)) :=
  match h !! d with
  | Some (ODict entries) => mapM (read_entry h) entries
  | _ => None
  end.

End Heap.

(** ** The Keras text and sequence utilities [main.py] calls

    [Tokenizer()] with its default arguments (no word limit, no
    out-of-vocabulary token), [pad_sequences] with [maxlen] alone (padding
    and truncation both at the front, value 0) and [to_categorical]. *)

Module Keras.

(** The default [filters] of [Tokenizer]: the punctuation without the
    apostrophe, the tab and the newline. *)
Definition filters (c : ascii) : bool :=
  let n := Py.code c in
  (Py.punctuation c && negb (n =? 39) || (n =? 9) || (n =? 10))%N.

(** [text_to_word_sequence(text)] *)
Definition text_to_word_sequence (text : string) : list string :=
  let text := Py.lower text in
  let text := Py.smap (fun c => if filters c then " "%char else c) text in
  let seq := Py.split_sep " "%char EmptyString text in
  filter (fun w => Py.is_empty w = false) seq.

Record Tokenizer := {
  word_index : Dict.t string nat;
  index_word : Dict.t nat string
}.

(** [word_counts[w] += 1], or [= 1] for a new word. *)
Definition count_word (word_counts : Dict.t string nat) (w : string) : Dict.t string nat :=
  match Dict.get w word_counts with
  | Some n => Dict.set w (n + 1) word_counts
  | None => Dict.set w 1 word_counts
  end.

(** One step of the stable sort by decreasing count: [x] goes after every
    entry counted at least as often. *)
Fixpoint insert_by_count (x : string * nat) (l : list (string * nat)) : list (string * nat) :=
  match l with
  | [] => [x]
  | y :: l' => if y.2 <? x.2 then x :: y :: l' else y :: insert_by_count x l'
  end.

(** [wcounts.sort(key=lambda x: x[1], reverse=True)] *)
Definition sort_by_count (wcounts : list (string * nat)) : list (string * nat) :=
  foldl (fun sorted x => insert_by_count x sorted) [] wcounts.

(** [Tokenizer().fit_on_texts(texts)] *)
Definition fit_on_texts (texts : list string) : Tokenizer :=
  let word_counts :=
    foldl (fun wc text => foldl count_word wc (text_to_word_sequence text)) [] texts in
  let wcounts := sort_by_count word_counts in
  let sorted_voc := wcounts.*1 in
  let word_index := Dict.build [] (zip sorted_voc (seq 1 (length sorted_voc))) in
  let index_word := Dict.build [] ((fun wc : string * nat => (wc.2, wc.1)) <$> word_index) in
  {| word_index := word_index; index_word := index_word |}.

(** [tokenizer.texts_to_sequences([text])[0]]: the words without an index
    are left out. *)
Definition texts_to_sequences (tokenizer : Tokenizer) (text : string) : list nat :=
  omap (fun w => Dict.get w (word_index tokenizer)) (text_to_word_sequence text).

(** [pad_sequences([s], maxlen=maxlen)[0]]. The row has [maxlen] cells; a
    non-empty [s] is cut to [s[-maxlen:]] (all of [s] when [maxlen] is 0)
    and written at the end of the row, which raises when it does not fit. *)
Definition pad_sequences (maxlen : nat) (s : list nat) : option (list nat) :=
  match s with
  | [] => Some (replicate maxlen 0)
  | _ =>
      let trunc := if maxlen =? 0 then s else drop (length s - maxlen) s in
      if length trunc <=? maxlen
      then Some (replicate (maxlen - length trunc) 0 ++ trunc)
      else None
  end.

(** [to_categorical([y], num_classes=num_classes)[0]]: a falsy
    [num_classes] stands for [y + 1]; an index outside the row raises. *)
Definition to_categorical (y num_classes : nat) : option (list nat) :=
  let num_classes := if num_classes =? 0 then y + 1 else num_classes in
  if y <? num_classes then Some (<[y := 1]> (replicate num_classes 0)) else None.

End Keras.

(** ** [feature_extractor.py] *)

Module FeatureExtractor.

Inductive BaseModel := VGG16 | ResNet50.

(** The fields [_load_base_model] sets; the layer the features are read
    from goes with the base model ([fc2] or [avg_pool]). *)
Record t := {
  model_name : string;
  base_model : BaseModel;
  output_dim : nat
}.

(** [FeatureExtractor(model_name)]: [None] when [_load_base_model] raises
    [ValueError]. *)
Definition new (name : string) : option t :=
  let name := Py.lower name in
  if decide (name = "vgg16")
  then Some {| model_name := name; base_model := VGG16; output_dim := 4096 |}
  else if decide (name = "resnet50")
  then Some {| model_name := name; base_model := ResNet50; output_dim := 2048 |}
  else None.

Definition get_output_dim (extractor : t) : nat := output_dim extractor.

End FeatureExtractor.

(** ** [main.py] *)

Module Main.

Section generator.
Context {F : Type}.

(** The three lists a batch is collected in. *)
Record Batch := { X1 : list F; X2 : list (list nat); y : list (list nat) }.

Variable descriptions_for_gen : Dict.t string (list string).
Variable features : Dict.t string F.
Variable tokenizer : Keras.Tokenizer.
Variables max_length vocab_size : nat.

(** The body of [for i in range(1, len(seq))]. *)
Definition prefix_step (img_features : F) (sq : list nat) (b : Batch) (i : nat)
    : option Batch :=
  let in_seq := take i sq in
  out_seq ← sq !! i;
  in_seq ← Keras.pad_sequences max_length in_seq;
  out_seq ← Keras.to_categorical out_seq vocab_size;
  Some {| X1 := X1 b ++ [img_features]; X2 := X2 b ++ [in_seq]; y := y b ++ [out_seq] |}.

(** The body of [for desc_line in desc_lines]. *)
Definition caption_step (img_features : F) (b : Batch) (desc_line : string)
    : option Batch :=
  let sq := Keras.texts_to_sequences tokenizer desc_line in
  foldlM (prefix_step img_features sq) b (seq 1 (length sq - 1)).

(** The body of [for img_id in batch_image_ids]; a missing key raises. *)
Definition image_step (b : Batch) (img_id : string) : option Batch :=
  desc_lines ← Dict.get img_id descriptions_for_gen;
  img_features ← Dict.get img_id features;
  foldlM (caption_step img_features) b desc_lines.

(** The three lists after the loop over [batch_image_ids]. *)
Definition make_batch (batch_image_ids : list string) : option Batch :=
  foldlM image_step {| X1 := []; X2 := []; y := [] |} batch_image_ids.

(** [range(0, len(image_ids_batch), batch_size)]; a zero step raises. *)
Definition batch_starts (batch_size n : nat) : option (list nat) :=
  if batch_size =? 0 then None
  else Some ((fun k => k * batch_size) <$> seq 0 ((n + batch_size - 1) / batch_size)).

(** [if X1 and X2 and y]: the batch is yielded. *)
Definition yielded (b : Batch) : bool :=
  match X1 b, X2 b, y b with
  | _ :: _, _ :: _, _ :: _ => true
  | _, _, _ => false
  end.

(** One round of the [while True] loop of [data_generator]: the batches it
    yields, in order ([None] when an exception ends the generator). The
    generator repeats this round for ever. *)
Definition data_generator_round (batch_size : nat) (image_ids_batch : list string)
    : option (list Batch) :=
  match batch_starts batch_size (length image_ids_batch) with
  | None => None
  | Some starts =>
      foldlM (fun batches i =>
                match make_batch (take batch_size (drop i image_ids_batch)) with
                | None => None
                | Some b => Some (if yielded b then batches ++ [b] else batches)
                end)
             [] starts
  end.

End generator.

Section train.
Context {F : Type}.

(** Where [train_model] stands once the generator's arguments are ready:
    it has printed the abort message and returned, or it goes on to build
    the model and fit it on [data_generator] with these arguments. *)
Inductive TrainOutcome :=
  | Aborted (message : string)
  | Fits (tokenizer : Keras.Tokenizer) (max_length vocab_size : nat)
         (filtered_descriptions_for_generator : Dict.t string (list string))
         (image_ids_list_for_generator : list string).

(** [train_model] from the loading of the data on; [all_features] is the
    embedding cache, computed or loaded just before. *)
Definition train_model (all_features : Dict.t string F) (captions_filepath : string)
    (fs : DataLoader.FileSystem) : TrainOutcome :=
  let descriptions := (DataLoader.load_descriptions captions_filepath fs).1 in
  let cleaned_descriptions_raw := DataLoader.clean_descriptions descriptions in
  let all_desc_lines_with_tokens :=
    DataLoader.descriptions_to_lines cleaned_descriptions_raw in
  let tokenizer := Keras.fit_on_texts all_desc_lines_with_tokens in
  let vocab_size := length (Keras.word_index tokenizer) + 1 in
  let max_length := DataLoader.max_len cleaned_descriptions_raw in
  let filtered_descriptions_for_generator :=
    Dict.build []
      ((fun kv : string * list string =>
          (kv.1, DataLoader.descriptions_to_lines [(kv.1, kv.2)]))
         <$> filter (fun kv => Dict.mem kv.1 all_features = true) cleaned_descriptions_raw) in
  match filtered_descriptions_for_generator with
  | [] => Aborted "No matching image features found for descriptions. Training aborted."
  | _ =>
      Fits tokenizer max_length vocab_size filtered_descriptions_for_generator
           (Dict.keys filtered_descriptions_for_generator)
  end.

End train.

Section predict.
Context {F : Type}.

(** [np.argmax(model.predict([photo_features, sequence]))] *)
Definition Predictor := F -> list nat -> nat.

Section decoding.
Variable model : Predictor.
Variable tokenizer : Keras.Tokenizer.
Variable photo_features : F.
Variable max_length : nat.

(** The [for i in range(max_length)] loop of [generate_caption] with [n]
    iterations left: the text it ends with, and the indices predicted on
    the way, in order. *)
Fixpoint decode_loop (n : nat) (in_text : string) : option (string * list nat) :=
  match n with
  | 0 => Some (in_text, [])
  | S n' =>
      let sequence := Keras.texts_to_sequences tokenizer in_text in
      sequence ← Keras.pad_sequences max_length sequence;
      let yhat := model photo_features sequence in
      match Dict.get yhat (Keras.index_word tokenizer) with
      | None => Some (in_text, [yhat])
      | Some word =>
          let in_text := in_text +:+ " " +:+ word in
          if decide (word = "endseq") then Some (in_text, [yhat])
          else r ← decode_loop n' in_text; Some (r.1, yhat :: r.2)
      end
  end.

Definition generate_caption_run : option (string * list nat) :=
  decode_loop max_length "startseq".

Definition generate_caption : option string := fst <$> generate_caption_run.

End decoding.

(** What [predict_caption] finds: each persisted artifact is absent
    ([None]), present but unreadable ([Some None]) or present with a value,
    and so is the query image. [features_pkl] is the embedding cache the
    train path writes. *)
Record Environment := {
  features_pkl : option (option (Dict.t string F));
  tokenizer_pkl : option (option Keras.Tokenizer);
  max_length_pkl : option (option nat);
  model_h5 : option (option Predictor);
  query_image : option (option F)
}.

Inductive PredictOutcome :=
  | Failed (message : string)     (* a diagnostic is printed and the call returns *)
  | Raised                        (* an exception that nothing catches *)
  | Caption (final_caption : string).

(** [predict_caption]: the three paths are those of the model weights, the
    tokenizer and the max length under [MODELS_DIR]. The feature model name
    is one of the two the command line accepts, so that building the
    feature extractor does not raise; [predict_caption_named] below is the
    function for any name, with the calls that build the extractor and the
    network. *)
Definition predict_caption (model_path tokenizer_path max_length_path : string)
    (image_path : string) (env : Environment) : PredictOutcome :=
  match model_h5 env, tokenizer_pkl env, max_length_pkl env with
  | None, _, _ =>
      Failed ("Error: Model not found at " +:+ model_path
              +:+ ". Please train the model first.")
  | _, None, _ =>
      Failed ("Error: Tokenizer not found at " +:+ tokenizer_path
              +:+ ". Please train the model first.")
  | _, _, None =>
      Failed ("Error: Max length not found at " +:+ max_length_path
              +:+ ". Please train the model first.")
  | Some weights, Some tok, Some ml =>
      match tok, ml with
      | Some tokenizer, Some max_length =>
          match weights with
          | None => Failed ("Error loading model weights from " +:+ model_path)
          | Some model =>
              match query_image env with
              | None => Failed ("Error: Image not found at " +:+ image_path)
              | Some None => Failed ("Error processing input image " +:+ image_path)
              | Some (Some image_feature) =>
                  match generate_caption model tokenizer image_feature max_length with
                  | None => Raised
                  | Some caption =>
                      Caption (Py.replace " endseq" "" (Py.replace "startseq " "" caption))
                  end
              end
          end
      | _, _ => Failed "Error loading tokenizer or max_length"
      end
  end.

End predict.

Section features.
Context {F : Type}.

(** The loop of [train_model] over [os.listdir(IMAGES_DIR)]. [embed] is the
    body of its [try]: the flattened feature of the image, or [None] when
    loading or predicting raises, in which case the image is skipped. *)
Definition extract_all (embed : string -> option F) (image_ids : list string)
    : Dict.t string F :=
  foldl (fun all_features img_id =>
           match embed img_id with
           | Some feature => Dict.set img_id feature all_features
           | None => all_features
           end)
        [] image_ids.

(** The embedding cache [train_model] works with: extracted when the
    features file is absent ([None]), and otherwise what unpickling the file
    gives ([Some None] when that raises, which ends [train_model]). *)
Definition load_or_extract (features_pkl : option (option (Dict.t string F)))
    (embed : string -> option F) (image_ids : list string)
    : option (Dict.t string F) :=
  match features_pkl with
  | None => Some (extract_all embed image_ids)
  | Some cache => cache
  end.

(** [len(image_ids_list_for_generator) // batch_size]; a zero batch size
    raises. *)
Definition steps_per_epoch (batch_size : nat) (image_ids : list string) : option nat :=
  if batch_size =? 0 then None else Some (length image_ids / batch_size).

End features.

Section predict_named.
Context {F : Type}.

(** What the calls into Keras that no [try] guards do: whether the
    pretrained base model loads, and whether
    [model_architectures.create_model] builds the network for a feature
    dimension, a vocabulary size and a max length. *)
Record Backend := {
  base_model_loads : FeatureExtractor.BaseModel -> bool;
  create_model_builds : nat -> nat -> nat -> bool
}.

(** [predict_caption(image_path, feature_model_name)] with the two calls
    the function makes between the loading of the pickles and the loading
    of the weights: [FeatureExtractor(feature_model_name)] and
    [create_model(feature_dim, vocab_size, max_length)]. Neither is inside a
    [try], so an unsupported name ([ValueError]), a base model that does not
    load or a network that cannot be built ends the call with an
    exception. *)
Definition predict_caption_named (feature_model_name : string) (keras : Backend)
    (model_path tokenizer_path max_length_path : string)
    (image_path : string) (env : @Environment F) : PredictOutcome :=
  match model_h5 env, tokenizer_pkl env, max_length_pkl env with
  | None, _, _ =>
      Failed ("Error: Model not found at " +:+ model_path
              +:+ ". Please train the model first.")
  | _, None, _ =>
      Failed ("Error: Tokenizer not found at " +:+ tokenizer_path
              +:+ ". Please train the model first.")
  | _, _, None =>
      Failed ("Error: Max length not found at " +:+ max_length_path
              +:+ ". Please train the model first.")
  | Some weights, Some tok, Some ml =>
      match tok, ml with
      | Some tokenizer, Some max_length =>
          match FeatureExtractor.new feature_model_name with
          | None => Raised
          | Some extractor =>
              let vocab_size := length (Keras.word_index tokenizer) + 1 in
              if base_model_loads keras (FeatureExtractor.base_model extractor)
                 && create_model_builds keras (FeatureExtractor.get_output_dim extractor)
                      vocab_size max_length
              then
                match weights with
                | None => Failed ("Error loading model weights from " +:+ model_path)
                | Some model =>
                    match query_image env with
                    | None => Failed ("Error: Image not found at " +:+ image_path)
                    | Some None => Failed ("Error processing input image " +:+ image_path)
                    | Some (Some image_feature) =>
                        match generate_caption model tokenizer image_feature max_length with
                        | None => Raised
                        | Some caption =>
                            Caption (Py.replace " endseq" ""
                                       (Py.replace "startseq " "" caption))
                        end
                    end
                end
              else Raised
          end
      | _, _ => Failed "Error loading tokenizer or max_length"
      end
  end.

End predict_named.

End Main.

(** ** Vocabulary of the statements *)

(** A letter that [lower] leaves alone: what a cleaned caption is made of. *)
Definition lower_alpha (c : ascii) : bool :=
  Py.isalpha_char c && bool_decide (Py.lower_char c = c).

(** A token of a cleaned caption: one letter at least, lowercase letters only. *)
Definition clean_token (w : string) : bool :=
  negb (Py.is_empty w) && Py.sall lower_alpha w.

(** A text of lowercase letters and blanks only. *)
Definition clean_text (s : string) : bool :=
  Py.sall (fun c => lower_alpha c || Ascii.eqb c " "%char) s.

(** The tokens [clean_caption] joins. *)
Definition caption_tokens (desc : string) : list string :=
  filter (fun w => Py.isalpha w = true)
         (Py.strip_punctuation <$> (Py.lower <$> Py.split desc)).

(** An entry of the mapping, cleaned. *)
Definition clean_pair (kv : string * list string) : string * list string :=
  (kv.1, DataLoader.clean_list kv.2).

(** A caption between the boundary markers. *)
Definition frame (desc : string) : string := "startseq " +:+ desc +:+ " endseq".

(** A text without comma. *)
Definition no_comma (s : string) : bool :=
  Py.sall (fun c => negb (Ascii.eqb c ","%char)) s.

(** What holds of the store [H] while [clean_descriptions] runs on the
    store [h], once the entries [done] are processed: the objects of [h]
    are as they were, and the new mapping, at the first address past [h],
    holds the cleaned entries in lists allocated past [h]. *)
Definition cleaning (h H : Heap.heap) (done : Dict.t string (list string)) : Prop :=
  (forall l o, h !! l = Some o -> H !! l = Some o)
  /\ exists es,
      H !! length h = Some (Heap.ODict es)
      /\ mapM (Heap.read_entry H) es = Some (Dict.build [] (clean_pair <$> done))
      /\ Forall (fun kv : string * Heap.loc => length h < kv.2) es.

(** The predicted index ends the decoding loop: it has no word, or its word
    is the end marker. *)
Definition stops (tokenizer : Keras.Tokenizer) (yhat : nat) : Prop :=
  Dict.get yhat (Keras.index_word tokenizer) = None
  \/ Dict.get yhat (Keras.index_word tokenizer) = Some "endseq".

(** The predicted index has a word other than the end marker. *)
Definition continues (tokenizer : Keras.Tokenizer) (yhat : nat) : Prop :=
  exists word, Dict.get yhat (Keras.index_word tokenizer) = Some word /\ word <> "endseq".

(** A store with one caption list and the mapping that holds it. *)
Definition store0 : list Heap.obj :=
  [Heap.OList ["A Cat!"; "2 dogs, running."]; Heap.ODict [("img1.jpg", 0)]].

(** A model that predicts the padding index whatever it is given. *)
Definition always_zero : @Main.Predictor unit := fun _ _ => 0.

(** The vector with a 1 at [i] and 0 elsewhere. *)
Definition one_hot (num_classes i : nat) : list nat := <[i := 1]> (replicate num_classes 0).

(** [s] behind as many zeros as it takes to reach [maxlen]. *)
Definition left_pad (maxlen : nat) (s : list nat) : list nat :=
  replicate (maxlen - length s) 0 ++ s.

(** The training triples of one caption encoded as [sq], for an image with
    embedding [feat]: one per prefix length from 1 to [length sq - 1]. *)
Definition examples {F} (max_length vocab_size : nat) (feat : F) (sq : list nat)
    : @Main.Batch F :=
  {| Main.X1 := replicate (length sq - 1) feat;
     Main.X2 := (fun i => left_pad max_length (take i sq)) <$> seq 1 (length sq - 1);
     Main.y := (fun i => one_hot vocab_size (sq !!! i)) <$> seq 1 (length sq - 1) |}.

(** The triples of [b] followed by those of [b']. *)
Definition extend {F} (b b' : @Main.Batch F) : @Main.Batch F :=
  {| Main.X1 := Main.X1 b ++ Main.X1 b';
     Main.X2 := Main.X2 b ++ Main.X2 b';
     Main.y := Main.y b ++ Main.y b' |}.

(** An entry of the cleaned mapping with its captions framed. *)
Definition frame_entry (kv : string * list string) : string * list string :=
  (kv.1, frame <$> kv.2).

(** The entries of images that have a cached embedding. *)
Definition cached {F} (all_features : Dict.t string F)
    (cleaned : Dict.t string (list string)) : Dict.t string (list string) :=
  filter (fun kv => Dict.mem kv.1 all_features = true) cleaned.

(** The tokenizer fitted on one framed caption: startseq 1, a 2, cat 3,
    endseq 4. *)
Definition tokenizer0 : Keras.Tokenizer := Keras.fit_on_texts ["startseq a cat endseq"].

(** A models directory with the tokenizer, the max length and the weights,
    but without the embedding cache, and a readable query image. *)
Definition no_cache : @Main.Environment unit :=
  {| Main.features_pkl := None;
     Main.tokenizer_pkl := Some (Some tokenizer0);
     Main.max_length_pkl := Some (Some 4);
     Main.model_h5 := Some (Some (fun _ sequence => if decide (sequence = [0; 0; 0; 1]) then 3 else 4));
     Main.query_image := Some (Some tt) |}.

(** A file system where every image file exists. *)
Definition all_images : DataLoader.FileSystem :=
  {| DataLoader.captions_lines := None; DataLoader.image_exists := fun _ => true |}.

(** The word counts [fit_on_texts] collects. *)
Definition word_counts (texts : list string) : Dict.t string nat :=
  foldl (fun wc text => foldl Keras.count_word wc (Keras.text_to_word_sequence text)) [] texts.

(** The words in the order of their indices. *)
Definition sorted_voc (texts : list string) : list string :=
  (Keras.sort_by_count (word_counts texts)).*1.

(** The captions file of one image with the caption "A cat sits!", in a
    directory of two images. *)
Definition captions1 : DataLoader.FileSystem :=
  {| DataLoader.captions_lines := Some ["image,caption
"; "img1.jpg,A cat sits!
"];
     DataLoader.image_exists := fun s => bool_decide (s = "img1.jpg" \/ s = "img2.jpg") |}.

(** An embedding cache with both images (two-cell vectors stand for the
    embeddings). *)
Definition cache2 : Dict.t string (list nat) :=
  [("img1.jpg", [7; 1]); ("img2.jpg", [7; 2])].

(** The framed caption of the first image, and the tokenizer fitted on it:
    startseq 1, a 2, cat 3, sits 4, endseq 5. *)
Definition line1 : string := "startseq a cat sits endseq".

Definition tokenizer1 : Keras.Tokenizer := Keras.fit_on_texts [line1].

(** The identifier and the caption [load_descriptions] reads off a line,
    when the line has a comma. *)
Definition parse_line (line : string) : option (string * string) :=
  match Py.split1 ","%char EmptyString (Py.strip line) with
  | p0 :: p1 :: _ => Some (Py.strip p0, Py.strip p1)
  | _ => None
  end.

(** The captions the lines give for one image, in the order of the lines. *)
Definition captions_of (img : string) (lines : list string) : list string :=
  omap (fun line =>
          match parse_line line with
          | Some (image_id, description) =>
              if decide (image_id = img) then Some description else None
          | None => None
          end) lines.

(** What a mapping holds for an image whose captions are [l]: no entry
    when there is none. *)
Definition entry_of (l : list string) : option (list string) :=
  match l with [] => None | _ => Some l end.

(** What the mapping holds after the lines [done]. *)
Definition holds (fs : DataLoader.FileSystem) (mapping : Dict.t string (list string))
    (done : list string) : Prop :=
  forall img,
    Dict.get img mapping
    = if DataLoader.image_exists fs img then entry_of (captions_of img done) else None.

(** A batch [np.array] can take: the three lists are equally long, every
    row of [X2] has [max_length] cells, and every row of [y] is a vector with
    a single 1, over the vocabulary when [vocab_size] is positive. *)
Definition rectangular {F} (max_length vocab_size : nat) (b : @Main.Batch F) : Prop :=
  length (Main.X1 b) = length (Main.X2 b)
  /\ length (Main.X2 b) = length (Main.y b)
  /\ Forall (fun row => length row = max_length) (Main.X2 b)
  /\ Forall (fun row => sum_list row = 1
                        /\ (0 < vocab_size -> length row = vocab_size)) (Main.y b).

(** The identifiers of the batch that starts at [i]. *)
Definition slice (batch_size : nat) (image_ids : list string) (i : nat) : list string :=
  take batch_size (drop i image_ids).

(** The batch without triple. *)
Definition empty_batch {F} : @Main.Batch F :=
  {| Main.X1 := []; Main.X2 := []; Main.y := [] |}.

(** The triples of the batches [bs], end to end. *)
Definition join_batches {F} (bs : list (@Main.Batch F)) : @Main.Batch F :=
  foldr extend empty_batch bs.

(** The triples of one image: those of its captions, in the order of the
    captions. *)
Definition image_examples {F} (descriptions_for_gen : Dict.t string (list string))
    (features : Dict.t string F) (tokenizer : Keras.Tokenizer)
    (max_length vocab_size : nat) (img : string) : @Main.Batch F :=
  match Dict.get img descriptions_for_gen, Dict.get img features with
  | Some desc_lines, Some feat =>
      join_batches ((fun line => examples max_length vocab_size feat
                                   (Keras.texts_to_sequences tokenizer line))
                      <$> desc_lines)
  | _, _ => empty_batch
  end.

(** The triples of a batch of images: those of its images, in the order
    of the identifiers. *)
Definition batch_examples {F} (descriptions_for_gen : Dict.t string (list string))
    (features : Dict.t string F) (tokenizer : Keras.Tokenizer)
    (max_length vocab_size : nat) (batch_image_ids : list string) : @Main.Batch F :=
  join_batches (image_examples descriptions_for_gen features tokenizer max_length vocab_size
                  <$> batch_image_ids).

(** A captions file of two images, the second with the longer caption, in
    a directory that has both. *)
Definition captions2 : DataLoader.FileSystem :=
  {| DataLoader.captions_lines := Some ["image,caption
"; "img1.jpg,A cat sits!
"; "img2.jpg,Two dogs run in the park.
"];
     DataLoader.image_exists := fun s => bool_decide (s = "img1.jpg" \/ s = "img2.jpg") |}.

(** A Keras whose base models load and whose networks are built. *)
Definition keras_ok : Main.Backend :=
  {| Main.base_model_loads := fun _ => true;
     Main.create_model_builds := fun _ _ _ => true |}.

(** An embedding cache with the first image only. *)
Definition cache1 : Dict.t string (list nat) := [("img1.jpg", [7; 1])].

(** The tokenizer fitted on the two framed captions of [captions2]:
    startseq 1, endseq 2, then a, cat, sits, two, dogs, run, in, the, park. *)
Definition tokenizer2 : Keras.Tokenizer :=
  Keras.fit_on_texts [line1; "startseq two dogs run in the park endseq"].

(** The batch of the caption [line1] when rows have two cells only: the
    longer prefixes are cut at the front. *)
Definition batch_cut : @Main.Batch (list nat) :=
  {| Main.X1 := [[7; 1]; [7; 1]; [7; 1]; [7; 1]];
     Main.X2 := [[0; 1]; [1; 2]; [2; 3]; [3; 4]];
     Main.y := [[0; 0; 1; 0; 0; 0]; [0; 0; 0; 1; 0; 0];
                [0; 0; 0; 0; 1; 0]; [0; 0; 0; 0; 0; 1]] |}.

(** The text that goes with a list of predicted indices: the start marker,
    then a blank and the word for every index that has one. *)
Definition spelled (tokenizer : Keras.Tokenizer) (in_text : string) (trace : list nat)
    : string :=
  foldl (fun text yhat =>
           match Dict.get yhat (Keras.index_word tokenizer) with
           | Some word => text +:+ " " +:+ word
           | None => text
           end) in_text trace.

(** A model that predicts "cat" after the start marker and the end marker
    after anything else, for [tokenizer0] and rows of four cells. *)
Definition cat_then_end : @Main.Predictor unit :=
  fun _ sequence => if decide (sequence = [0; 0; 0; 1]) then 3 else 4.

(** A model that predicts the padding index on rows of three cells. *)
Definition zero_on_three : @Main.Predictor unit :=
  fun _ sequence => if length sequence =? 3 then 0 else 9.


(** An image pipeline that fails on one image. *)
Definition embed1 (img_id : string) : option (list nat) :=
  if decide (img_id = "broken.jpg") then None else Some [7; String.length img_id].

(** * Properties *)

(** ** The model on examples *)

Example split_demo : Py.split "  a man  is walking. " = ["a"; "man"; "is"; "walking."].
Proof. reflexivity. Qed.

Example clean_demo : DataLoader.clean_caption "A Cat! 2nd it's" = "a cat its".
Proof. reflexivity. Qed.

Example load_demo :
  DataLoader.load_descriptions "captions.txt"
    {| DataLoader.captions_lines := Some ["image,caption
"; "img1.jpg,A Cat!
"; "img1.jpg, hello, world
"; "nocomma
"; "img2.jpg,gone
"];
       DataLoader.image_exists := fun s => bool_decide (s = "img1.jpg") |}
  = ([("img1.jpg", ["A Cat!"; "hello, world"])], []).
Proof. reflexivity. Qed.


(** ** Strings *)

Section string_facts.

Lemma sapp_cons c s t : String c s +:+ t = String c (s +:+ t).
Proof. reflexivity. Qed.

Lemma sapp_nil_l s : "" +:+ s = s.
Proof. reflexivity. Qed.

Lemma sapp_nil_r s : s +:+ "" = s.
Proof. induction s as [|c s IH]; [done|]. by rewrite sapp_cons, IH. Qed.

Lemma sapp_assoc a b c : (a +:+ b) +:+ c = a +:+ b +:+ c.
Proof. induction a as [|x a IH]; [done|]. by rewrite !sapp_cons, IH. Qed.

Lemma sapp_snoc a c s : (a +:+ String c "") +:+ s = a +:+ String c s.
Proof. by rewrite sapp_assoc. Qed.

Lemma is_empty_true s : Py.is_empty s = true <-> s = "".
Proof. by destruct s. Qed.

Lemma is_empty_app a b : Py.is_empty (a +:+ b) = Py.is_empty a && Py.is_empty b.
Proof. by destruct a. Qed.

Lemma sall_app p a b : Py.sall p (a +:+ b) = Py.sall p a && Py.sall p b.
Proof.
  induction a as [|c a IH]; [done|].
  rewrite sapp_cons. simpl. by rewrite IH, andb_assoc.
Qed.

Lemma sall_impl (p q : ascii -> bool) s :
  (forall c, p c = true -> q c = true) -> Py.sall p s = true -> Py.sall q s = true.
Proof.
  intros Hpq. induction s as [|c s IH]; [done|]. simpl.
  intros [Hc Hs]%andb_true_iff. rewrite (Hpq _ Hc). simpl. auto.
Qed.

Lemma smap_app f a b : Py.smap f (a +:+ b) = Py.smap f a +:+ Py.smap f b.
Proof. induction a as [|c a IH]; [done|]. rewrite !sapp_cons. simpl. by rewrite IH. Qed.

Lemma smap_id_on f s :
  Py.sall (fun c => bool_decide (f c = c)) s = true -> Py.smap f s = s.
Proof.
  induction s as [|c s IH]; [done|]. simpl.
  intros [Hc Hs]%andb_true_iff. apply bool_decide_eq_true in Hc.
  by rewrite Hc, IH.
Qed.

Lemma sfilter_all p s : Py.sall p s = true -> Py.sfilter p s = s.
Proof.
  induction s as [|c s IH]; [done|]. simpl.
  intros [Hc Hs]%andb_true_iff. by rewrite Hc, IH.
Qed.

Lemma sall_smap p f s : Py.sall p (Py.smap f s) = Py.sall (fun c => p (f c)) s.
Proof. induction s as [|c s IH]; [done|]. simpl. by rewrite IH. Qed.

Lemma sall_sfilter p q s :
  Py.sall p (Py.sfilter q s) = Py.sall (fun c => implb (q c) (p c)) s.
Proof.
  induction s as [|c s IH]; [done|]. simpl.
  destruct (q c); simpl; by rewrite IH.
Qed.

(** A separator between two texts separates their pieces. *)
Lemma split_by_app_sep sep cur a c b :
  sep c = true ->
  Py.split_by sep cur (a +:+ String c b)
  = Py.split_by sep cur a ++ Py.split_by sep "" b.
Proof.
  intros Hc. revert cur.
  induction a as [|x a IH]; intros cur.
  - rewrite sapp_nil_l. simpl. by rewrite Hc.
  - rewrite sapp_cons. simpl. destruct (sep x).
    + by rewrite IH, (assoc_L (++)).
    + apply IH.
Qed.

(** A text without separator is one piece. *)
Lemma split_by_word sep cur w :
  Py.sall (fun c => negb (sep c)) w = true ->
  Py.split_by sep cur w = Py.flush (cur +:+ w).
Proof.
  revert cur. induction w as [|x w IH]; intros cur.
  - by rewrite sapp_nil_r.
  - simpl. intros [Hx Hw]%andb_true_iff.
    apply negb_true_iff in Hx. rewrite Hx, IH by done. by rewrite sapp_snoc.
Qed.

(** Two separator tests that agree on the characters of a text split it
    alike. *)
Lemma split_by_ext p q cur s :
  Py.sall (fun c => bool_decide (p c = q c)) s = true ->
  Py.split_by p cur s = Py.split_by q cur s.
Proof.
  revert cur. induction s as [|x s IH]; intros cur; [done|]. simpl.
  intros [Hx Hs]%andb_true_iff. apply bool_decide_eq_true in Hx.
  rewrite Hx. destruct (q x); by rewrite IH.
Qed.

(** Splitting at every separator and dropping the empty pieces is
    splitting at runs of separators. *)
Lemma split_sep_nonempty sep cur s :
  filter (fun w => Py.is_empty w = false) (Py.split_sep sep cur s)
  = Py.split_by (fun c => Ascii.eqb c sep) cur s.
Proof.
  revert cur. induction s as [|x s IH]; intros cur.
  - simpl. unfold Py.flush. destruct cur; by cbn.
  - simpl. destruct (Ascii.eqb x sep).
    + rewrite filter_cons, IH. unfold Py.flush.
      destruct cur; by cbn.
    + apply IH.
Qed.

End string_facts.

(** ** Characters *)

Section char_facts.

Local Ltac by_cases c := destruct c as [[] [] [] [] [] [] [] []]; vm_compute; congruence.

Lemma lower_char_idem c : Py.lower_char (Py.lower_char c) = Py.lower_char c.
Proof. by_cases c. Qed.

Lemma alpha_not_space c : Py.isalpha_char c = true -> Py.isspace c = false.
Proof. by_cases c. Qed.

Lemma alpha_not_punctuation c : Py.isalpha_char c = true -> Py.punctuation c = false.
Proof. by_cases c. Qed.

Lemma alpha_not_filtered c : Py.isalpha_char c = true -> Keras.filters c = false.
Proof. by_cases c. Qed.

Lemma alpha_not_blank c : Py.isalpha_char c = true -> Ascii.eqb c " " = false.
Proof. by_cases c. Qed.

Lemma lower_alpha_alpha c : lower_alpha c = true -> Py.isalpha_char c = true.
Proof. unfold lower_alpha. by intros [? _]%andb_true_iff. Qed.

Lemma lower_alpha_lower c : lower_alpha c = true -> Py.lower_char c = c.
Proof.
  unfold lower_alpha. intros [_ H]%andb_true_iff. by apply bool_decide_eq_true in H.
Qed.

End char_facts.

(** ** Cleaned tokens and captions *)

Section clean_facts.

Lemma clean_token_nonempty w : clean_token w = true -> Py.is_empty w = false.
Proof. unfold clean_token. intros [H _]%andb_true_iff. by apply negb_true_iff. Qed.

Lemma clean_token_letters w : clean_token w = true -> Py.sall lower_alpha w = true.
Proof. unfold clean_token. by intros [_ H]%andb_true_iff. Qed.

Lemma clean_token_no_space w :
  clean_token w = true -> Py.sall (fun c => negb (Py.isspace c)) w = true.
Proof.
  intros H%clean_token_letters. revert H. apply sall_impl.
  intros c Hc%lower_alpha_alpha%alpha_not_space. by rewrite Hc.
Qed.

Lemma clean_token_lower w : clean_token w = true -> Py.lower w = w.
Proof.
  intros H%clean_token_letters. apply smap_id_on. revert H. apply sall_impl.
  intros c Hc%lower_alpha_lower. by apply bool_decide_eq_true.
Qed.

Lemma clean_token_strip_punctuation w :
  clean_token w = true -> Py.strip_punctuation w = w.
Proof.
  intros H%clean_token_letters. apply sfilter_all. revert H. apply sall_impl.
  intros c Hc%lower_alpha_alpha%alpha_not_punctuation. by rewrite Hc.
Qed.

Lemma clean_token_isalpha w : clean_token w = true -> Py.isalpha w = true.
Proof.
  intros H. unfold Py.isalpha.
  rewrite (clean_token_nonempty _ H). simpl.
  apply clean_token_letters in H. revert H. apply sall_impl, lower_alpha_alpha.
Qed.

(** What the three steps of [clean_caption] make of any word is a cleaned
    token, when the filter keeps it. *)
Lemma cleaned_word_token x :
  Py.isalpha (Py.strip_punctuation (Py.lower x)) = true ->
  clean_token (Py.strip_punctuation (Py.lower x)) = true.
Proof.
  unfold Py.isalpha, clean_token.
  intros [Hne Hal]%andb_true_iff. rewrite Hne. simpl.
  unfold Py.strip_punctuation, Py.lower in *.
  rewrite sall_sfilter, sall_smap in *.
  revert Hal. apply sall_impl. intros c.
  unfold lower_alpha. destruct (negb (Py.punctuation (Py.lower_char c))); [|done].
  simpl. intros ->. simpl. apply bool_decide_eq_true, lower_char_idem.
Qed.

Lemma split_word w :
  Py.is_empty w = false -> Py.sall (fun c => negb (Py.isspace c)) w = true ->
  Py.split w = [w].
Proof.
  intros Hne Hw. unfold Py.split. rewrite split_by_word by done.
  rewrite sapp_nil_l. unfold Py.flush. by rewrite Hne.
Qed.

(** Splitting what [join] made of cleaned tokens gives the tokens back. *)
Lemma split_join ws :
  Forall (fun w => clean_token w = true) ws -> Py.split (Py.join " " ws) = ws.
Proof.
  induction 1 as [|w ws Hw Hws IH]; [done|].
  destruct ws as [|w' ws].
  - apply split_word; [by apply clean_token_nonempty|by apply clean_token_no_space].
  - change (Py.join " " (w :: w' :: ws)) with (w +:+ String " " (Py.join " " (w' :: ws))).
    unfold Py.split. rewrite split_by_app_sep by done.
    fold (Py.split w) (Py.split (Py.join " " (w' :: ws))).
    rewrite IH, split_word; [done|by apply clean_token_nonempty|by apply clean_token_no_space].
Qed.

Lemma caption_tokens_clean desc :
  Forall (fun w => clean_token w = true) (caption_tokens desc).
Proof.
  unfold caption_tokens. apply Forall_forall. intros w.
  rewrite list_elem_of_filter, <- list_fmap_compose, list_elem_of_fmap.
  intros [Hal (x & -> & _)]. by apply cleaned_word_token.
Qed.

Lemma caption_tokens_fixed ws :
  Forall (fun w => clean_token w = true) ws ->
  caption_tokens (Py.join " " ws) = ws.
Proof.
  intros Hws. unfold caption_tokens. rewrite split_join by done.
  induction Hws as [|w ws Hw Hws IH]; [done|].
  rewrite !fmap_cons, filter_cons, IH.
  rewrite (clean_token_lower _ Hw), (clean_token_strip_punctuation _ Hw).
  by rewrite decide_True by by apply clean_token_isalpha.
Qed.

Lemma clean_caption_idem desc :
  DataLoader.clean_caption (DataLoader.clean_caption desc) = DataLoader.clean_caption desc.
Proof.
  change (DataLoader.clean_caption desc) with (Py.join " " (caption_tokens desc)).
  change (DataLoader.clean_caption (Py.join " " (caption_tokens desc)))
    with (Py.join " " (caption_tokens (Py.join " " (caption_tokens desc)))).
  by rewrite caption_tokens_fixed by apply caption_tokens_clean.
Qed.

Lemma clean_list_fmap l : DataLoader.clean_list l = DataLoader.clean_caption <$> l.
Proof.
  unfold DataLoader.clean_list.
  enough (forall acc, foldl (fun cl d => cl ++ [DataLoader.clean_caption d]) acc l
                      = acc ++ (DataLoader.clean_caption <$> l)) as H by apply H.
  induction l as [|d l IH]; intros acc; simpl.
  - by rewrite (right_id_L [] (++)).
  - by rewrite IH, <- (assoc_L (++)).
Qed.

Lemma clean_list_idem l :
  DataLoader.clean_list (DataLoader.clean_list l) = DataLoader.clean_list l.
Proof.
  rewrite !clean_list_fmap, <- list_fmap_compose.
  apply list_fmap_ext. intros _ d _. apply clean_caption_idem.
Qed.

End clean_facts.

(** ** Dictionaries *)

Section dict_facts.
Context {K V : Type} `{EqDecision K}.
Implicit Types (d acc : Dict.t K V) (k : K) (v : V).

Lemma set_fresh k v d : k ∉ Dict.keys d -> Dict.set k v d = d ++ [(k, v)].
Proof.
  induction d as [|[k' v'] d IH]; [done|]. unfold Dict.keys. cbn.
  intros [Hne Hd]%not_elem_of_cons. rewrite decide_False by done.
  f_equal. by apply IH.
Qed.

Lemma keys_set_elem k v d k' :
  k' ∈ Dict.keys (Dict.set k v d) <-> k' = k \/ k' ∈ Dict.keys d.
Proof.
  induction d as [|[k0 v0] d IH]; unfold Dict.keys in *; cbn.
  - rewrite list_elem_of_singleton. split; [by left|]. by intros [?|?%elem_of_nil].
  - destruct (decide (k0 = k)) as [->|Hne]; cbn.
    + rewrite !elem_of_cons. tauto.
    + rewrite !elem_of_cons, IH. tauto.
Qed.

Lemma keys_set_NoDup k v d : NoDup (Dict.keys d) -> NoDup (Dict.keys (Dict.set k v d)).
Proof.
  induction d as [|[k0 v0] d IH]; unfold Dict.keys in *; cbn.
  - intros _. apply NoDup_singleton.
  - intros [Hk0 Hd]%NoDup_cons.
    destruct (decide (k0 = k)) as [->|Hne]; cbn.
    + by apply NoDup_cons.
    + apply NoDup_cons. split; [|by apply IH].
      intros [?|?]%keys_set_elem; [congruence|done].
Qed.

Lemma set_Forall (P : K * V -> Prop) k v d :
  Forall P d -> P (k, v) -> Forall P (Dict.set k v d).
Proof.
  intros Hd Hkv. induction Hd as [|[k0 v0] d H0 Hd IH]; cbn.
  - by apply Forall_singleton.
  - destruct (decide (k0 = k)); by apply Forall_cons.
Qed.

Lemma build_fresh acc kvs :
  NoDup (Dict.keys (acc ++ kvs)) -> Dict.build acc kvs = acc ++ kvs.
Proof.
  revert acc. induction kvs as [|[k v] kvs IH]; intros acc Hnd.
  - by rewrite (right_id_L [] (++)).
  - unfold Dict.build in *. cbn.
    assert (k ∉ Dict.keys acc) as Hk.
    { unfold Dict.keys in *. rewrite fmap_app in Hnd.
      apply NoDup_app in Hnd as (_ & Hdisj & _).
      intros Hin. apply (Hdisj _ Hin). cbn. left. }
    rewrite (set_fresh _ _ _ Hk), IH; rewrite <- (assoc_L (++)); done.
Qed.

Lemma build_keys_NoDup acc kvs :
  NoDup (Dict.keys acc) -> NoDup (Dict.keys (Dict.build acc kvs)).
Proof.
  revert acc. induction kvs as [|[k v] kvs IH]; intros acc Hnd; [done|].
  apply IH. by apply keys_set_NoDup.
Qed.

Lemma build_Forall (P : K * V -> Prop) acc kvs :
  Forall P acc -> Forall P kvs -> Forall P (Dict.build acc kvs).
Proof.
  revert acc. induction kvs as [|[k v] kvs IH]; intros acc Hacc Hkvs; [done|].
  apply Forall_cons in Hkvs as [Hkv Hkvs].
  apply IH; [|done]. by apply set_Forall.
Qed.

Lemma build_keys_elem acc kvs k :
  k ∈ Dict.keys (Dict.build acc kvs) <-> k ∈ Dict.keys acc \/ k ∈ Dict.keys kvs.
Proof.
  revert acc. induction kvs as [|[k0 v0] kvs IH]; intros acc.
  - unfold Dict.keys. cbn. split; [by left|]. by intros [?|?%elem_of_nil].
  - change (Dict.build acc ((k0, v0) :: kvs)) with (Dict.build (Dict.set k0 v0 acc) kvs).
    rewrite IH, keys_set_elem.
    unfold Dict.keys. cbn. rewrite elem_of_cons. tauto.
Qed.

Lemma get_Some_elem k v d : Dict.get k d = Some v -> (k, v) ∈ d.
Proof.
  induction d as [|[k0 v0] d IH]; [done|]. cbn.
  destruct (decide (k0 = k)) as [->|Hne].
  - intros [= ->]. left.
  - intros Hd. right. by apply IH.
Qed.

Lemma get_None_keys k d : Dict.get k d = None <-> k ∉ Dict.keys d.
Proof.
  unfold Dict.keys. induction d as [|[k0 v0] d IH]; cbn.
  - split; [intros _; apply not_elem_of_nil|done].
  - rewrite not_elem_of_cons. destruct (decide (k0 = k)) as [->|Hne].
    + split; [done|]. by intros [? _].
    + rewrite IH. split; [by split|by intros [_ ?]].
Qed.

Lemma elem_get k v d : NoDup (Dict.keys d) -> (k, v) ∈ d -> Dict.get k d = Some v.
Proof.
  unfold Dict.keys. induction d as [|[k0 v0] d IH]; cbn.
  - by intros _ ?%elem_of_nil.
  - intros [Hk0 Hd]%NoDup_cons [[= -> ->]|Hin]%elem_of_cons.
    + by rewrite decide_True.
    + rewrite decide_False; [by apply IH|].
      intros ->. apply Hk0. apply list_elem_of_fmap. by exists (k, v).
Qed.

Lemma mem_keys k d : Dict.mem k d = true <-> k ∈ Dict.keys d.
Proof.
  unfold Dict.mem. rewrite bool_decide_eq_true.
  destruct (Dict.get k d) as [v|] eqn:Hg.
  - split; [|by eauto]. intros _. apply get_Some_elem in Hg.
    unfold Dict.keys. apply list_elem_of_fmap. by exists (k, v).
  - split; [by intros [? ?]|]. intros Hin. by apply get_None_keys in Hg.
Qed.

End dict_facts.

(** ** [clean_descriptions] *)

Section clean_descriptions_facts.

Lemma clean_descriptions_build d :
  DataLoader.clean_descriptions d = Dict.build [] (clean_pair <$> d).
Proof. unfold DataLoader.clean_descriptions, Dict.build. by rewrite foldl_fmap. Qed.

Lemma clean_descriptions_NoDup d : NoDup (Dict.keys (DataLoader.clean_descriptions d)).
Proof. rewrite clean_descriptions_build. apply build_keys_NoDup, NoDup_nil_2. Qed.

(** On a dictionary (distinct keys) the loop cleans entry by entry. *)
Lemma clean_descriptions_fmap d :
  NoDup (Dict.keys d) -> DataLoader.clean_descriptions d = clean_pair <$> d.
Proof.
  intros Hnd. rewrite clean_descriptions_build.
  rewrite build_fresh; [done|]. cbn. unfold Dict.keys in *.
  by rewrite <- list_fmap_compose.
Qed.

Lemma clean_descriptions_cleaned d :
  Forall (fun kv => DataLoader.clean_list kv.2 = kv.2) (DataLoader.clean_descriptions d).
Proof.
  rewrite clean_descriptions_build. apply build_Forall; [done|].
  apply Forall_fmap, Forall_true. intros kv. apply clean_list_idem.
Qed.

(** C5. Caption normalization is idempotent: cleaning a mapping twice gives
    what cleaning it once gives, and so does cleaning one caption twice. *)
Theorem clean_descriptions_idempotent :
  (forall descriptions,
     DataLoader.clean_descriptions (DataLoader.clean_descriptions descriptions)
     = DataLoader.clean_descriptions descriptions)
  /\ (forall desc,
        DataLoader.clean_caption (DataLoader.clean_caption desc)
        = DataLoader.clean_caption desc).
Proof.
  split; [|apply clean_caption_idem].
  intros d. rewrite (clean_descriptions_fmap (DataLoader.clean_descriptions d))
    by apply clean_descriptions_NoDup.
  pose proof (clean_descriptions_cleaned d) as Hc.
  induction Hc as [|[k l] d' Hl Hd' IH]; [done|].
  rewrite fmap_cons, IH. unfold clean_pair. cbn in *. by rewrite Hl.
Qed.

End clean_descriptions_facts.

(** ** [descriptions_to_lines], [to_vocabulary] and [max_len] *)

Section lines_facts.

Lemma foldl_snoc_fmap {A B} (f : A -> B) (acc : list B) (l : list A) :
  foldl (fun acc x => acc ++ [f x]) acc l = acc ++ (f <$> l).
Proof.
  revert acc. induction l as [|x l IH]; intros acc; cbn.
  - by rewrite (right_id_L [] (++)).
  - by rewrite IH, <- (assoc_L (++)).
Qed.

(** The lines are the framed captions, image after image. *)
Lemma descriptions_to_lines_bind d :
  DataLoader.descriptions_to_lines d = d ≫= (fun kv => frame <$> kv.2).
Proof.
  unfold DataLoader.descriptions_to_lines.
  enough (forall acc,
    foldl (fun all kv => foldl (fun acc desc => acc ++ ["startseq " +:+ desc +:+ " endseq"])
                               all kv.2) acc d
    = acc ++ (d ≫= (fun kv => frame <$> kv.2))) as H by apply H.
  induction d as [|[k l] d IH]; intros acc; cbn.
  - by rewrite (right_id_L [] (++)).
  - rewrite IH. rewrite (foldl_snoc_fmap frame). by rewrite <- (assoc_L (++)).
Qed.

Lemma elem_of_lines d line :
  line ∈ DataLoader.descriptions_to_lines d
  <-> exists k l desc, (k, l) ∈ d /\ desc ∈ l /\ line = frame desc.
Proof.
  rewrite descriptions_to_lines_bind, list_elem_of_bind. split.
  - intros ([k l] & (desc & -> & Hd)%list_elem_of_fmap & Hkl). by exists k, l, desc.
  - intros (k & l & desc & Hkl & Hd & ->). exists (k, l). split; [|done].
    apply list_elem_of_fmap. by exists desc.
Qed.

Lemma vocabulary_words (voc : gset string) ws w :
  w ∈ foldl (fun voc word => voc ∪ {[word]}) voc ws <-> w ∈ voc \/ w ∈ ws.
Proof.
  revert voc. induction ws as [|x ws IH]; intros voc; cbn.
  - split; [by left|]. by intros [?|?%elem_of_nil].
  - rewrite IH, elem_of_union, elem_of_singleton, elem_of_cons. tauto.
Qed.

Lemma vocabulary_lines (voc : gset string) lines w :
  w ∈ foldl (fun voc line => foldl (fun voc word => voc ∪ {[word]}) voc (Py.split line))
            voc lines
  <-> w ∈ voc \/ exists line, line ∈ lines /\ w ∈ Py.split line.
Proof.
  revert voc. induction lines as [|x lines IH]; intros voc; cbn.
  - split; [by left|]. by intros [?|(? & ?%elem_of_nil & _)].
  - rewrite IH, vocabulary_words. split.
    + intros [[?|?]|(line & ? & ?)]; [by left|right..].
      * exists x. split; [left|done].
      * exists line. split; [by right|done].
    + intros [?|(line & [->|?]%elem_of_cons & ?)]; [by left; left|by left; right|].
      right. by exists line.
Qed.

(** C7. The vocabulary is exactly the set of tokens of the framed caption
    lines: a word is in [to_vocabulary descriptions] if and only if it is a
    token of some line of [descriptions_to_lines descriptions]. *)
Theorem to_vocabulary_exact (descriptions : Dict.t string (list string)) (w : string) :
  w ∈ DataLoader.to_vocabulary descriptions
  <-> exists line, line ∈ DataLoader.descriptions_to_lines descriptions
                   /\ w ∈ Py.split line.
Proof.
  unfold DataLoader.to_vocabulary. rewrite vocabulary_lines. split.
  - by intros [?%not_elem_of_empty|?].
  - by right.
Qed.

Lemma foldl_max_ge a l : a <= foldl Nat.max a l.
Proof.
  revert a. induction l as [|x l IH]; intros a; cbn; [done|].
  etrans; [|apply IH]. lia.
Qed.

Lemma foldl_max_upper a l x : x ∈ l -> x <= foldl Nat.max a l.
Proof.
  revert a. induction l as [|x0 l IH]; intros a; cbn.
  - by intros ?%elem_of_nil.
  - intros [->|Hx]%elem_of_cons; [|by apply IH].
    etrans; [|apply foldl_max_ge]. lia.
Qed.

Lemma foldl_max_attained a l : foldl Nat.max a l = a \/ foldl Nat.max a l ∈ l.
Proof.
  revert a. induction l as [|x l IH]; intros a; cbn; [by left|].
  destruct (IH (a `max` x)) as [->|Hin]; [|by right; right].
  destruct (Nat.max_spec a x) as [[_ ->]|[_ ->]]; [right; left|by left].
Qed.

Lemma max_of_attained l : l <> [] -> DataLoader.max_of l ∈ l.
Proof.
  intros Hl. unfold DataLoader.max_of.
  destruct (foldl_max_attained 0 l) as [H0|?]; [|done].
  destruct l as [|x l]; [done|]. rewrite H0.
  assert (x <= 0) as Hx by (rewrite <- H0; apply foldl_max_upper; left).
  replace x with 0 by lia. left.
Qed.

Lemma max_len_upper descriptions line :
  line ∈ DataLoader.descriptions_to_lines descriptions ->
  length (Py.split line) <= DataLoader.max_len descriptions.
Proof.
  intros Hline. unfold DataLoader.max_len.
  rewrite bool_decide_eq_false_2 by (intros E; rewrite E in Hline; by apply elem_of_nil in Hline).
  apply foldl_max_upper, list_elem_of_fmap. by exists line.
Qed.

(** C9. [max_len] is the largest token count among the framed captions: no
    line has more tokens, some line has exactly that many when there is a
    line at all, and the corpus of the single caption "a b c", framed as
    "startseq a b c endseq", gives 5. *)
Theorem max_len_is_maximum :
  (forall descriptions line,
     line ∈ DataLoader.descriptions_to_lines descriptions ->
     length (Py.split line) <= DataLoader.max_len descriptions)
  /\ (forall descriptions,
        DataLoader.descriptions_to_lines descriptions <> [] ->
        exists line, line ∈ DataLoader.descriptions_to_lines descriptions
                     /\ length (Py.split line) = DataLoader.max_len descriptions)
  /\ DataLoader.descriptions_to_lines [("img1.jpg", ["a b c"])] = ["startseq a b c endseq"]
  /\ DataLoader.max_len [("img1.jpg", ["a b c"])] = 5.
Proof.
  split; [apply max_len_upper|split; [|done]].
  intros d Hne. unfold DataLoader.max_len.
  rewrite bool_decide_eq_false_2 by done.
  set (ns := (fun s => length (Py.split s)) <$> DataLoader.descriptions_to_lines d).
  assert (ns <> []) as Hns by (subst ns; by destruct (DataLoader.descriptions_to_lines d)).
  apply max_of_attained in Hns. subst ns.
  apply list_elem_of_fmap in Hns as (line & Hlen & Hin). by exists line.
Qed.

(** The theorem at a mapping with two images: the longest framed caption
    has six tokens. *)
Lemma max_len_is_maximum_witness :
  length (Py.split "startseq a dog runs fast endseq")
  <= DataLoader.max_len [("img1.jpg", ["a b c"]); ("img2.jpg", ["a dog runs fast"; "dog"])].
Proof. apply (proj1 max_len_is_maximum). vm_compute. right. left. Defined.

End lines_facts.

(** ** [load_descriptions] *)

Section load_facts.

Lemma split1_comma cur a b :
  no_comma a = true ->
  Py.split1 "," cur (a +:+ String "," b) = [cur +:+ a; b].
Proof.
  revert cur. induction a as [|x a IH]; intros cur.
  - intros _. by rewrite sapp_nil_l, sapp_nil_r.
  - unfold no_comma. cbn. intros [Hx Ha]%andb_true_iff.
    apply negb_true_iff in Hx. rewrite sapp_cons. cbn.
    rewrite Hx, IH by done. by rewrite sapp_snoc.
Qed.

Lemma split1_no_comma cur s :
  no_comma s = true -> Py.split1 "," cur s = [cur +:+ s].
Proof.
  revert cur. induction s as [|x s IH]; intros cur.
  - intros _. by rewrite sapp_nil_r.
  - unfold no_comma. cbn. intros [Hx Hs]%andb_true_iff.
    apply negb_true_iff in Hx. rewrite Hx, IH by done. by rewrite sapp_snoc.
Qed.

Lemma get_set_same {V} k (v : V) (d : Dict.t string V) :
  Dict.get k (Dict.set k v d) = Some v.
Proof.
  induction d as [|[k0 v0] d IH]; cbn.
  - by rewrite decide_True.
  - destruct (decide (k0 = k)) as [->|Hne]; cbn.
    + by rewrite decide_True.
    + by rewrite decide_False.
Qed.

(** The image gains the caption, after those it already has. *)
Lemma add_description_get image_id description mapping :
  Dict.get image_id (DataLoader.add_description image_id description mapping)
  = Some (default [] (Dict.get image_id mapping) ++ [description]).
Proof.
  unfold DataLoader.add_description. rewrite get_set_same. do 2 f_equal.
  unfold Dict.mem. case_bool_decide as Hm.
  - done.
  - rewrite get_set_same. destruct (Dict.get image_id mapping); [|done].
    exfalso. apply Hm. eauto.
Qed.

(** C4, as the code has it. For a line that, stripped of surrounding
    whitespace, has a first comma, the image identifier is the text before
    that comma and the caption is all of the text after it, later commas
    included, each stripped of surrounding whitespace; the caption is then
    appended to the captions of that image when the image file exists. A
    line without comma changes nothing and prints nothing. A missing
    captions file gives the empty mapping and one diagnostic. *)
Theorem load_descriptions_parses :
  (forall fs mapping line a b,
     Py.strip line = a +:+ String "," b -> no_comma a = true ->
     DataLoader.load_line fs mapping line
     = if DataLoader.image_exists fs (Py.strip a)
       then DataLoader.add_description (Py.strip a) (Py.strip b) mapping
       else mapping)
  /\ (forall image_id description mapping,
        Dict.get image_id (DataLoader.add_description image_id description mapping)
        = Some (default [] (Dict.get image_id mapping) ++ [description]))
  /\ (forall fs mapping line,
        no_comma (Py.strip line) = true -> DataLoader.load_line fs mapping line = mapping)
  /\ (forall path fs header lines,
        DataLoader.captions_lines fs = Some (header :: lines) ->
        DataLoader.load_descriptions path fs
        = (foldl (DataLoader.load_line fs) [] lines, []))
  /\ (forall path fs,
        DataLoader.captions_lines fs = None ->
        DataLoader.load_descriptions path fs
        = ([], ["Error: Captions file not found at " +:+ path])).
Proof.
  repeat split.
  - intros fs mapping line a b Hline Ha. unfold DataLoader.load_line.
    rewrite Hline, split1_comma by done. rewrite sapp_nil_l.
    by destruct (DataLoader.image_exists fs (Py.strip a)).
  - apply add_description_get.
  - intros fs mapping line Hline. unfold DataLoader.load_line.
    by rewrite split1_no_comma.
  - intros path fs header lines Hfs. unfold DataLoader.load_descriptions. by rewrite Hfs.
  - intros path fs Hfs. unfold DataLoader.load_descriptions. by rewrite Hfs.
Qed.

(** The theorem at the line "img1.jpg , A cat, asleep". *)
Lemma load_descriptions_parses_witness :
  DataLoader.load_line all_images [] " img1.jpg , A cat, asleep
" = [("img1.jpg", ["A cat, asleep"])].
Proof.
  rewrite (proj1 load_descriptions_parses all_images [] _ "img1.jpg " " A cat, asleep");
    reflexivity.
Defined.

(** C4, as stated, fails: the identifier and the caption are not the raw
    texts around the first comma, since the code strips them. *)
Lemma load_line_not_verbatim :
  ~ (forall fs mapping a b,
       no_comma a = true -> DataLoader.image_exists fs a = true ->
       DataLoader.load_line fs mapping (a +:+ String "," b)
       = DataLoader.add_description a b mapping).
Proof.
  intros H. specialize (H all_images [] "img1.jpg" " A cat" eq_refl eq_refl).
  vm_compute in H. discriminate H.
Qed.

End load_facts.

(** ** [clean_descriptions] over the store *)

Section heap_facts.

Lemma list_append_Some c x (H : list Heap.obj) acc :
  H !! c = Some (Heap.OList acc) ->
  Heap.list_append c x H = Some (<[c := Heap.OList (acc ++ [x])]> H).
Proof. intros Hc. unfold Heap.list_append. by rewrite Hc. Qed.

(** The inner loop appends to the list it was given and writes nowhere else. *)
Lemma append_loop c (f : string -> string) (items : list string) : forall H acc,
  H !! c = Some (Heap.OList acc) ->
  foldlM (fun h desc => Heap.list_append c (f desc) h) H items
  = Some (<[c := Heap.OList (acc ++ (f <$> items))]> H).
Proof.
  induction items as [|x items IH]; intros H acc Hc.
  - change (Some H = Some (<[c := Heap.OList (acc ++ [])]> H)).
    by rewrite (right_id_L [] (++)), list_insert_id.
  - change (Heap.list_append c (f x) H
            ≫= (fun H' => foldlM (fun h desc => Heap.list_append c (f desc) h) H' items)
            = Some (<[c := Heap.OList (acc ++ f x :: (f <$> items))]> H)).
    rewrite (list_append_Some _ _ _ _ Hc).
    change (foldlM (fun h desc => Heap.list_append c (f desc) h)
                   (<[c := Heap.OList (acc ++ [f x])]> H) items
            = Some (<[c := Heap.OList (acc ++ f x :: (f <$> items))]> H)).
    rewrite (IH _ (acc ++ [f x])).
    + by rewrite list_insert_insert_eq, <- (assoc_L (++)).
    + apply list_lookup_insert_eq. by apply lookup_lt_Some in Hc.
Qed.

Lemma mapM_weaken {A B} (f g : A -> option B) l vs :
  mapM f l = Some vs ->
  (forall x y, x ∈ l -> f x = Some y -> g x = Some y) ->
  mapM g l = Some vs.
Proof.
  rewrite !mapM_Some. intros HF Hfg.
  induction HF as [|x y l vs Hxy HF IH]; constructor.
  - apply Hfg; [left|done].
  - apply IH. intros x' y' Hin. apply Hfg. by right.
Qed.

(** Reading a mapping after [d[k] = l] is setting [k] in what was read. *)
Lemma read_set H es vs k l v :
  mapM (Heap.read_entry H) es = Some vs ->
  Heap.read_list H l = Some v ->
  mapM (Heap.read_entry H) (Dict.set k l es) = Some (Dict.set k v vs).
Proof.
  rewrite !mapM_Some. intros HF Hl.
  induction HF as [|[k0 l0] [k1 v1] es vs Hxy HF IH]; cbn.
  - constructor; [|constructor]. unfold Heap.read_entry. cbn. by rewrite Hl.
  - assert (k1 = k0) as ->.
    { unfold Heap.read_entry in Hxy. cbn in Hxy.
      destruct (Heap.read_list H l0); by simplify_eq/=. }
    destruct (decide (k0 = k)) as [->|Hne]; constructor; try done.
    unfold Heap.read_entry. cbn. by rewrite Hl.
Qed.

Lemma build_snoc {V} (acc : Dict.t string V) kvs k v :
  Dict.build acc (kvs ++ [(k, v)]) = Dict.set k v (Dict.build acc kvs).
Proof. unfold Dict.build. by rewrite foldl_app. Qed.

(** One entry: the store grows by the cleaned list, the new mapping gains
    the entry, and nothing else changes. *)
Lemma clean_entry_step h H done k l items :
  cleaning h H done ->
  h !! l = Some (Heap.OList items) ->
  exists H', Heap.clean_entry (length h) H (k, l) = Some H'
             /\ cleaning h H' (done ++ [(k, items)]).
Proof.
  intros (Hframe & es & Hd & Hread & Hfresh) Hl.
  pose proof (lookup_lt_Some _ _ _ Hd) as Hlt.
  unfold Heap.clean_entry. cbn. rewrite (Hframe _ _ Hl). cbn.
  rewrite (append_loop _ _ _ _ []) by by apply list_lookup_middle.
  cbn. unfold Heap.dict_setitem.
  rewrite list_lookup_insert_ne by lia.
  rewrite (lookup_app_l_Some _ _ _ _ Hd). cbn.
  eexists. split; [done|].
  set (c := length H) in *.
  set (H2 := <[c := Heap.OList (DataLoader.clean_caption <$> items)]> (H ++ [Heap.OList []])).
  assert (length H2 = S c) as Hlen2.
  { subst H2. rewrite length_insert, length_app. cbn. lia. }
  assert (forall j o, H !! j = Some o -> j <> length h -> 
                      <[length h := Heap.ODict (Dict.set k c es)]> H2 !! j = Some o) as Hkeep.
  { intros j o Hj Hne. pose proof (lookup_lt_Some _ _ _ Hj).
    rewrite list_lookup_insert_ne by done. subst H2.
    rewrite list_lookup_insert_ne by lia. by apply lookup_app_l_Some. }
  split; [|exists (Dict.set k c es); split; [|split]].
  - intros j o Hj. apply Hkeep; [by apply Hframe|].
    apply lookup_lt_Some in Hj. lia.
  - apply list_lookup_insert_eq. lia.
  - rewrite fmap_app.
    change (clean_pair <$> [(k, items)]) with [(k, DataLoader.clean_list items)].
    rewrite build_snoc. apply read_set.
    + apply (mapM_weaken _ _ _ _ Hread). intros [k0 l0] [k1 v1] Hin.
      unfold Heap.read_entry, Heap.read_list. cbn.
      destruct (H !! l0) as [[|its]|] eqn:Hl0; try done. cbn.
      intros [= <- <-]. rewrite (Hkeep _ _ Hl0); [done|].
      intros ->. by rewrite Hd in Hl0.
    + unfold Heap.read_list. rewrite list_lookup_insert_ne by lia.
      subst H2. rewrite list_lookup_insert_eq by (rewrite length_app; cbn; lia).
      by rewrite clean_list_fmap.
  - apply set_Forall; [done|]. cbn. lia.
Qed.

Lemma clean_entries_loop h rest rest_v : forall H done,
  Forall2 (fun (kl : string * Heap.loc) (kv : string * list string) =>
             kl.1 = kv.1 /\ h !! kl.2 = Some (Heap.OList kv.2)) rest rest_v ->
  cleaning h H done ->
  exists H', foldlM (Heap.clean_entry (length h)) H rest = Some H'
             /\ cleaning h H' (done ++ rest_v).
Proof.
  intros H done HF. revert H done.
  induction HF as [|[k l] [k' items] rest rest_v [Hk Hl] HF IH]; intros H done Hinv.
  - exists H. by rewrite (right_id_L [] (++)).
  - cbn in Hk, Hl. subst k'.
    destruct (clean_entry_step _ _ _ k _ _ Hinv Hl) as (H1 & Hstep & Hinv1).
    destruct (IH _ _ Hinv1) as (H' & Hloop & Hinv').
    exists H'. cbn. rewrite Hstep. cbn. split; [done|].
    by rewrite <- (assoc_L (++)) in Hinv'.
Qed.

Lemma read_dict_entries h d v :
  Heap.read_dict h d = Some v ->
  exists entries, h !! d = Some (Heap.ODict entries)
    /\ Forall2 (fun (kl : string * Heap.loc) (kv : string * list string) =>
                  kl.1 = kv.1 /\ h !! kl.2 = Some (Heap.OList kv.2)) entries v.
Proof.
  unfold Heap.read_dict. destruct (h !! d) as [[entries|]|] eqn:Hd; try done.
  intros HF%mapM_Some. exists entries. split; [done|].
  eapply Forall2_impl; [exact HF|]. intros [k l] [k' items].
  unfold Heap.read_entry, Heap.read_list. cbn.
  destruct (h !! l) as [[|its]|]; try done. cbn. by intros [= -> ->].
Qed.

(** C6. [clean_descriptions] does not mutate its input. Run on a store [h]
    in which [descriptions] is a mapping from image identifiers to caption
    lists (of value [v]), it returns: every object of [h], the mapping and
    each caption list among them, is in the final store as it was, so the
    input still has the value [v]; the mapping returned is a new object,
    not allocated in [h], whose lists are new objects as well; and its value
    is the cleaned [v]. *)
Theorem clean_descriptions_frame (h : Heap.heap) (descriptions : Heap.loc)
    (v : Dict.t string (list string)) :
  Heap.read_dict h descriptions = Some v ->
  exists cleaned h',
    Heap.clean_descriptions descriptions h = Some (cleaned, h')
    /\ (forall l o, h !! l = Some o -> h' !! l = Some o)
    /\ Heap.read_dict h' descriptions = Some v
    /\ h !! cleaned = None
    /\ (exists es, h' !! cleaned = Some (Heap.ODict es)
                   /\ Forall (fun kv => h !! kv.2 = None) es)
    /\ Heap.read_dict h' cleaned = Some (DataLoader.clean_descriptions v).
Proof.
  intros Hv. destruct (read_dict_entries _ _ _ Hv) as (entries & Hd & HF).
  assert (cleaning h (h ++ [Heap.ODict []]) []) as Hinit.
  { split; [intros l o; apply lookup_app_l_Some|].
    exists []. split; [by apply list_lookup_middle|]. by split. }
  destruct (clean_entries_loop _ _ _ _ _ HF Hinit)
    as (h' & Hloop & Hframe & es & Hnew & Hread & Hfresh).
  exists (length h), h'. repeat split.
  - unfold Heap.clean_descriptions. rewrite Hd. cbn. by rewrite Hloop.
  - done.
  - unfold Heap.read_dict in *. rewrite Hd in Hv. rewrite (Hframe _ _ Hd).
    apply (mapM_weaken _ _ _ _ Hv). intros [k l] [k' items] _.
    unfold Heap.read_entry, Heap.read_list. cbn.
    destruct (h !! l) as [[|its]|] eqn:Hl; try done. by rewrite (Hframe _ _ Hl).
  - by apply lookup_ge_None_2.
  - exists es. split; [done|]. eapply Forall_impl; [exact Hfresh|].
    intros kv Hkv. cbn in Hkv. apply lookup_ge_None_2. lia.
  - unfold Heap.read_dict. rewrite Hnew, Hread. cbn.
    by rewrite clean_descriptions_build.
Qed.

End heap_facts.

(** The theorem at a store with one image and two captions. *)
Lemma clean_descriptions_frame_witness :
  exists cleaned h',
    Heap.clean_descriptions 1 store0 = Some (cleaned, h')
    /\ (forall l o, store0 !! l = Some o -> h' !! l = Some o)
    /\ Heap.read_dict h' 1 = Some [("img1.jpg", ["A Cat!"; "2 dogs, running."])]
    /\ store0 !! cleaned = None
    /\ (exists es, h' !! cleaned = Some (Heap.ODict es)
                   /\ Forall (fun kv => store0 !! kv.2 = None) es)
    /\ Heap.read_dict h' cleaned
       = Some (DataLoader.clean_descriptions [("img1.jpg", ["A Cat!"; "2 dogs, running."])]).
Proof. apply (clean_descriptions_frame store0 1). reflexivity. Defined.

(** ** The decoding loop *)

Section decoding_facts.
Context {F : Type}.
Variable model : @Main.Predictor F.
Variable tokenizer : Keras.Tokenizer.
Variable photo_features : F.
Variable max_length : nat.

(** With a positive [maxlen] the row always has room. *)
Lemma pad_sequences_pos maxlen s :
  0 < maxlen -> exists row, Keras.pad_sequences maxlen s = Some row /\ length row = maxlen.
Proof.
  intros Hpos. unfold Keras.pad_sequences. destruct s as [|x s].
  - eexists. split; [done|]. apply length_replicate.
  - destruct (Nat.eqb_spec maxlen 0) as [->|_]; [lia|].
    set (t := drop _ _).
    assert (length t <= maxlen) as Ht by (subst t; rewrite length_drop; lia).
    rewrite (proj2 (Nat.leb_le _ _) Ht).
    eexists. split; [done|]. rewrite length_app, length_replicate. lia.
Qed.

(** The loop with [n] rounds left ends, after at most [n] predictions; it
    ends early only on a prediction that stops it, and every prediction
    before the last is one that continues. *)
Lemma decode_loop_ends n : forall in_text,
  0 < max_length ->
  exists text trace,
    Main.decode_loop model tokenizer photo_features max_length n in_text = Some (text, trace)
    /\ length trace <= n
    /\ (length trace < n -> exists yhat, last trace = Some yhat /\ stops tokenizer yhat)
    /\ (forall i yhat, trace !! i = Some yhat -> S i < length trace ->
                       continues tokenizer yhat).
Proof.
  induction n as [|n IH]; intros in_text Hpos.
  - exists in_text, []. cbn. repeat split; [lia..|]. by intros i y.
  - cbn [Main.decode_loop].
    destruct (pad_sequences_pos max_length
                (Keras.texts_to_sequences tokenizer in_text) Hpos) as (row & -> & _).
    cbn. set (yhat := model photo_features row).
    destruct (Dict.get yhat (Keras.index_word tokenizer)) as [word|] eqn:Hw.
    + destruct (decide (word = "endseq")) as [->|Hne].
      * eexists _, [yhat]. cbn. repeat split; [lia| |].
        -- intros _. exists yhat. split; [done|]. by right.
        -- intros [|i] y; cbn; [lia|done].
      * destruct (IH (in_text +:+ " " +:+ word) Hpos) as (text & trace & -> & Hlen & Hearly & Hcont).
        exists text, (yhat :: trace). cbn. repeat split; [lia| |].
        -- intros Hlt. destruct (Hearly ltac:(lia)) as (y & Hlast & Hstop).
           exists y. split; [|done]. destruct trace; [done|]. done.
        -- intros [|i] y; cbn.
           ++ intros [= <-] _. by exists word.
           ++ intros Hi Hlt. apply (Hcont i); [done|lia].
    + eexists _, [yhat]. cbn. repeat split; [lia| |].
      * intros _. exists yhat. split; [done|]. by left.
      * intros [|i] y; cbn; [lia|done].
Qed.

(** C2, as the code has it. Greedy decoding always ends, with a text,
    after at most [max_length] predictions. When it ends before that many,
    the last prediction was the end marker or an index without a word; and
    no earlier prediction was either of those. *)
Theorem generate_caption_terminates :
  exists text trace,
    Main.generate_caption_run model tokenizer photo_features max_length = Some (text, trace)
    /\ Main.generate_caption model tokenizer photo_features max_length = Some text
    /\ length trace <= max_length
    /\ (length trace < max_length ->
        exists yhat, last trace = Some yhat /\ stops tokenizer yhat)
    /\ (forall i yhat, trace !! i = Some yhat -> S i < length trace ->
                       continues tokenizer yhat).
Proof.
  unfold Main.generate_caption, Main.generate_caption_run.
  destruct max_length as [|m] eqn:Hm.
  - exists "startseq", []. cbn. repeat split; [lia..|]. by intros i y.
  - rewrite <- Hm. destruct (decode_loop_ends max_length "startseq" ltac:(lia))
      as (text & trace & Hrun & Hrest).
    exists text, trace. rewrite Hrun. by split; [|split].
Qed.

(** A prediction without a word ends the loop at once: the text is
    returned as it stands, however many rounds were left. *)
Lemma decode_loop_unknown_index n in_text sequence :
  Keras.pad_sequences max_length (Keras.texts_to_sequences tokenizer in_text) = Some sequence ->
  Dict.get (model photo_features sequence) (Keras.index_word tokenizer) = None ->
  Main.decode_loop model tokenizer photo_features max_length (S n) in_text
  = Some (in_text, [model photo_features sequence]).
Proof. intros Hpad Hw. cbn [Main.decode_loop]. rewrite Hpad. cbn. by rewrite Hw. Qed.

End decoding_facts.

(** ** The tokenizer *)

Section tokenizer_facts.

Lemma insert_by_count_perm x l : Keras.insert_by_count x l ≡ₚ x :: l.
Proof.
  induction l as [|y l IH]; [reflexivity|].
  change (Keras.insert_by_count x (y :: l))
    with (if y.2 <? x.2 then x :: y :: l else y :: Keras.insert_by_count x l).
  destruct (y.2 <? x.2); [reflexivity|]. rewrite IH. apply Permutation_swap.
Qed.

Lemma sort_by_count_perm l : Keras.sort_by_count l ≡ₚ l.
Proof.
  unfold Keras.sort_by_count.
  enough (forall acc, foldl (fun sorted x => Keras.insert_by_count x sorted) acc l ≡ₚ acc ++ l) as H
    by apply H.
  induction l as [|x l IH]; intros acc; cbn.
  - by rewrite (right_id_L [] (++)).
  - rewrite IH, insert_by_count_perm. apply Permutation_middle.
Qed.

Lemma count_word_keys wc w w' :
  w' ∈ Dict.keys (Keras.count_word wc w) <-> w' = w \/ w' ∈ Dict.keys wc.
Proof. unfold Keras.count_word. destruct (Dict.get w wc); apply keys_set_elem. Qed.

Lemma count_word_NoDup wc w :
  NoDup (Dict.keys wc) -> NoDup (Dict.keys (Keras.count_word wc w)).
Proof. unfold Keras.count_word. destruct (Dict.get w wc); apply keys_set_NoDup. Qed.

Lemma count_words_keys ws : forall wc w',
  w' ∈ Dict.keys (foldl Keras.count_word wc ws) <-> w' ∈ Dict.keys wc \/ w' ∈ ws.
Proof.
  induction ws as [|w ws IH]; intros wc w'; cbn [foldl].
  - split; [by left|]. by intros [?|?%elem_of_nil].
  - rewrite IH, count_word_keys, elem_of_cons. tauto.
Qed.

Lemma count_words_NoDup ws : forall wc,
  NoDup (Dict.keys wc) -> NoDup (Dict.keys (foldl Keras.count_word wc ws)).
Proof.
  induction ws as [|w ws IH]; intros wc Hwc; cbn [foldl]; [done|].
  by apply IH, count_word_NoDup.
Qed.

Lemma word_counts_keys texts w :
  w ∈ Dict.keys (word_counts texts)
  <-> exists text, text ∈ texts /\ w ∈ Keras.text_to_word_sequence text.
Proof.
  unfold word_counts.
  enough (forall wc,
    w ∈ Dict.keys (foldl (fun wc text =>
                            foldl Keras.count_word wc (Keras.text_to_word_sequence text)) wc texts)
    <-> w ∈ Dict.keys wc
        \/ exists text, text ∈ texts /\ w ∈ Keras.text_to_word_sequence text) as H.
  { rewrite H. split; [|by right]. by intros [?%elem_of_nil|?]. }
  induction texts as [|t texts IH]; intros wc; cbn [foldl].
  - split; [by left|]. by intros [?|(? & ?%elem_of_nil & _)].
  - rewrite IH, count_words_keys. split.
    + intros [[?|?]|(text & ? & ?)]; [by left|right..].
      * exists t. split; [left|done].
      * exists text. split; [by right|done].
    + intros [?|(text & [->|?]%elem_of_cons & ?)]; [by left; left|by left; right|].
      right. by exists text.
Qed.

Lemma word_counts_NoDup texts : NoDup (Dict.keys (word_counts texts)).
Proof.
  unfold word_counts.
  enough (forall wc, NoDup (Dict.keys wc) ->
    NoDup (Dict.keys (foldl (fun wc text =>
                               foldl Keras.count_word wc (Keras.text_to_word_sequence text))
                            wc texts))) as H by apply H, NoDup_nil_2.
  induction texts as [|t texts IH]; intros wc Hwc; cbn [foldl]; [done|].
  by apply IH, count_words_NoDup.
Qed.

Lemma sorted_voc_elem texts w :
  w ∈ sorted_voc texts
  <-> exists text, text ∈ texts /\ w ∈ Keras.text_to_word_sequence text.
Proof.
  unfold sorted_voc. rewrite sort_by_count_perm. apply word_counts_keys.
Qed.

Lemma sorted_voc_NoDup texts : NoDup (sorted_voc texts).
Proof. unfold sorted_voc. rewrite sort_by_count_perm. apply word_counts_NoDup. Qed.

(** The word index numbers the words from 1, in order. *)
Lemma fit_word_index texts :
  Keras.word_index (Keras.fit_on_texts texts)
  = zip (sorted_voc texts) (seq 1 (length (sorted_voc texts))).
Proof.
  unfold Keras.fit_on_texts. cbn. fold (word_counts texts). fold (sorted_voc texts).
  apply build_fresh. cbn. unfold Dict.keys.
  rewrite fst_zip by (rewrite length_seq; lia). apply sorted_voc_NoDup.
Qed.

Lemma fit_vocab_size texts :
  length (Keras.word_index (Keras.fit_on_texts texts)) = length (sorted_voc texts).
Proof. rewrite fit_word_index, length_zip, length_seq. lia. Qed.

(** Every index is positive and below the vocabulary size. *)
Lemma fit_index_range texts w i :
  Dict.get w (Keras.word_index (Keras.fit_on_texts texts)) = Some i ->
  1 <= i <= length (Keras.word_index (Keras.fit_on_texts texts)).
Proof.
  intros Hg%get_Some_elem. rewrite fit_vocab_size.
  rewrite fit_word_index in Hg. apply elem_of_zip_r in Hg.
  apply elem_of_seq in Hg. lia.
Qed.

(** Every word of the fitted texts has an index. *)
Lemma fit_covers texts text w :
  text ∈ texts -> w ∈ Keras.text_to_word_sequence text ->
  is_Some (Dict.get w (Keras.word_index (Keras.fit_on_texts texts))).
Proof.
  intros Ht Hw.
  destruct (Dict.get w (Keras.word_index (Keras.fit_on_texts texts))) eqn:Hg; [by eauto|].
  apply get_None_keys in Hg. exfalso. apply Hg.
  rewrite fit_word_index. unfold Dict.keys.
  rewrite fst_zip by (rewrite length_seq; lia).
  apply sorted_voc_elem. by exists text.
Qed.

Lemma fit_index_word texts :
  Keras.index_word (Keras.fit_on_texts texts)
  = Dict.build [] ((fun wc : string * nat => (wc.2, wc.1))
                     <$> Keras.word_index (Keras.fit_on_texts texts)).
Proof. reflexivity. Qed.

(** No word has the padding index 0. *)
Lemma fit_zero_unmapped texts :
  Dict.get 0 (Keras.index_word (Keras.fit_on_texts texts)) = None.
Proof.
  apply get_None_keys. rewrite fit_index_word, build_keys_elem.
  intros [?%elem_of_nil|Hin]; [done|].
  unfold Dict.keys in Hin. rewrite <- list_fmap_compose in Hin.
  apply list_elem_of_fmap in Hin as ([w i] & Hi & Hin). cbn in Hi. subst i.
  rewrite fit_word_index in Hin. apply elem_of_zip_r, elem_of_seq in Hin. lia.
Qed.

Lemma length_omap_all {A B} (f : A -> option B) l :
  (forall x, x ∈ l -> is_Some (f x)) -> length (omap f l) = length l.
Proof.
  induction l as [|x l IH]; intros Hall; [done|].
  change (omap f (x :: l)) with (match f x with Some y => y :: omap f l | None => omap f l end).
  destruct (Hall x ltac:(left)) as [y ->]. cbn [length]. f_equal.
  apply IH. intros x' Hx'. apply Hall. by right.
Qed.

(** A fitted text is encoded word for word, each index in range. *)
Lemma fit_encodes texts text :
  text ∈ texts ->
  length (Keras.texts_to_sequences (Keras.fit_on_texts texts) text)
  = length (Keras.text_to_word_sequence text)
  /\ Forall (fun i => 1 <= i <= length (Keras.word_index (Keras.fit_on_texts texts)))
            (Keras.texts_to_sequences (Keras.fit_on_texts texts) text).
Proof.
  intros Ht. unfold Keras.texts_to_sequences. split.
  - apply length_omap_all. intros w. by apply fit_covers.
  - apply Forall_forall. intros i (w & _ & Hw)%list_elem_of_omap.
    by apply (fit_index_range _ w).
Qed.

End tokenizer_facts.

(** ** Clean texts: where [split] and the tokenizer agree *)

Section clean_text_facts.

Local Ltac by_cases c := destruct c as [[] [] [] [] [] [] [] []]; vm_compute; congruence.

Lemma clean_char_lower c :
  lower_alpha c || Ascii.eqb c " " = true -> Py.lower_char c = c.
Proof. by_cases c. Qed.

Lemma clean_char_kept c :
  lower_alpha c || Ascii.eqb c " " = true -> Keras.filters c = false.
Proof. by_cases c. Qed.

Lemma clean_char_blank c :
  lower_alpha c || Ascii.eqb c " " = true -> Ascii.eqb c " " = Py.isspace c.
Proof. by_cases c. Qed.

Lemma clean_text_app a b : clean_text (a +:+ b) = clean_text a && clean_text b.
Proof. apply sall_app. Qed.

Lemma clean_token_text w : clean_token w = true -> clean_text w = true.
Proof.
  intros H%clean_token_letters. revert H. apply sall_impl. by intros c ->.
Qed.

Lemma clean_text_join ws :
  Forall (fun w => clean_token w = true) ws -> clean_text (Py.join " " ws) = true.
Proof.
  induction 1 as [|w ws Hw Hws IH]; [done|].
  destruct ws as [|w' ws]; [by apply clean_token_text|].
  change (Py.join " " (w :: w' :: ws)) with (w +:+ " " +:+ Py.join " " (w' :: ws)).
  rewrite !clean_text_app, IH, (clean_token_text _ Hw). done.
Qed.

Lemma clean_caption_text desc : clean_text (DataLoader.clean_caption desc) = true.
Proof. apply clean_text_join, caption_tokens_clean. Qed.

Lemma clean_text_frame desc : clean_text desc = true -> clean_text (frame desc) = true.
Proof. intros Hd. unfold frame. by rewrite !clean_text_app, Hd. Qed.

(** On a clean text the tokenizer's words are the tokens of [split]. *)
Lemma clean_text_words s :
  clean_text s = true -> Keras.text_to_word_sequence s = Py.split s.
Proof.
  intros Hs. unfold Keras.text_to_word_sequence, Py.lower.
  rewrite (smap_id_on Py.lower_char s).
  2:{ revert Hs. apply sall_impl. intros c Hc%clean_char_lower.
      by apply bool_decide_eq_true. }
  rewrite (smap_id_on _ s).
  2:{ revert Hs. apply sall_impl. intros c Hc%clean_char_kept.
      rewrite Hc. by apply bool_decide_eq_true. }
  rewrite split_sep_nonempty. apply split_by_ext.
  revert Hs. apply sall_impl. intros c Hc%clean_char_blank.
  by apply bool_decide_eq_true.
Qed.

(** The tokens of a framed caption: the markers around those of the caption. *)
Lemma split_frame desc :
  Py.split (frame desc) = "startseq" :: Py.split desc ++ ["endseq"].
Proof.
  unfold frame, Py.split.
  change ("startseq " +:+ desc +:+ " endseq")
    with ("startseq" +:+ String " " (desc +:+ String " " "endseq")).
  by rewrite !split_by_app_sep.
Qed.

Lemma split_frame_length desc : length (Py.split (frame desc)) = length (Py.split desc) + 2.
Proof. rewrite split_frame. cbn. rewrite length_app. cbn. lia. Qed.

(** Every caption of a cleaned mapping is a clean text. *)
Lemma clean_descriptions_texts d :
  Forall (fun kv => Forall (fun desc => clean_text desc = true) kv.2)
         (DataLoader.clean_descriptions d).
Proof.
  rewrite clean_descriptions_build. apply build_Forall; [done|].
  apply Forall_fmap, Forall_true. intros [k l]. cbn.
  rewrite clean_list_fmap. apply Forall_fmap, Forall_true. intros desc.
  apply clean_caption_text.
Qed.

Lemma cleaned_lines_clean d line :
  line ∈ DataLoader.descriptions_to_lines (DataLoader.clean_descriptions d) ->
  clean_text line = true.
Proof.
  intros (k & l & desc & Hkl & Hdesc & ->)%elem_of_lines.
  apply clean_text_frame.
  pose proof (clean_descriptions_texts d) as HF.
  rewrite Forall_forall in HF. specialize (HF _ Hkl). cbn in HF.
  rewrite Forall_forall in HF. by apply HF.
Qed.

End clean_text_facts.

(** ** The training-example generator *)

Section generator_facts.
Context {F : Type}.
Variable tokenizer : Keras.Tokenizer.
Variables max_length vocab_size : nat.

Lemma pad_sequences_fits s :
  s <> [] -> length s <= max_length ->
  Keras.pad_sequences max_length s = Some (left_pad max_length s).
Proof.
  intros Hs Hlen. unfold Keras.pad_sequences, left_pad.
  destruct s as [|x s]; [done|].
  destruct (Nat.eqb_spec max_length 0) as [E|_]; [cbn in Hlen; lia|].
  replace (length (x :: s) - max_length) with 0 by lia. rewrite drop_0.
  by rewrite (proj2 (Nat.leb_le _ _) Hlen).
Qed.

Lemma to_categorical_in_range t :
  t < vocab_size -> Keras.to_categorical t vocab_size = Some (one_hot vocab_size t).
Proof.
  intros Ht. unfold Keras.to_categorical.
  destruct (Nat.eqb_spec vocab_size 0) as [E|_]; [lia|].
  by rewrite (proj2 (Nat.ltb_lt _ _) Ht).
Qed.

(** One prefix: one triple more. *)
Lemma prefix_step_ok (feat : F) sq b i t :
  1 <= i <= max_length -> sq !! i = Some t -> t < vocab_size ->
  Main.prefix_step max_length vocab_size feat sq b i
  = Some (extend b {| Main.X1 := [feat];
                      Main.X2 := [left_pad max_length (take i sq)];
                      Main.y := [one_hot vocab_size (sq !!! i)] |}).
Proof.
  intros Hi Ht Hlt. unfold Main.prefix_step. rewrite Ht. cbn.
  pose proof (lookup_lt_Some _ _ _ Ht) as Hlen.
  rewrite pad_sequences_fits.
  - cbn. rewrite to_categorical_in_range by done. cbn.
    by rewrite (list_lookup_total_correct _ _ _ Ht).
  - intros E. apply (f_equal length) in E. rewrite length_take in E. cbn in E. lia.
  - rewrite length_take. lia.
Qed.

Lemma extend_assoc (b1 b2 b3 : @Main.Batch F) :
  extend (extend b1 b2) b3 = extend b1 (extend b2 b3).
Proof. unfold extend. cbn. by rewrite !(assoc_L (++)). Qed.

Lemma prefix_loop_ok (feat : F) sq : forall len a b,
  1 <= a -> a + len <= length sq -> a + len <= S max_length ->
  Forall (fun t => t < vocab_size) sq ->
  foldlM (Main.prefix_step max_length vocab_size feat sq) b (seq a len)
  = Some (extend b {| Main.X1 := replicate len feat;
                      Main.X2 := (fun i => left_pad max_length (take i sq)) <$> seq a len;
                      Main.y := (fun i => one_hot vocab_size (sq !!! i)) <$> seq a len |}).
Proof.
  induction len as [|len IH]; intros a b Ha Hsq Hml Hvoc.
  - cbn. destruct b. unfold extend. cbn. by rewrite !(right_id_L [] (++)).
  - cbn [seq foldlM].
    destruct (lookup_lt_is_Some_2 sq a ltac:(lia)) as [t Ht].
    rewrite (prefix_step_ok feat sq b a t); [|lia|done|].
    2:{ rewrite Forall_forall in Hvoc. apply Hvoc. by eapply list_elem_of_lookup_2. }
    cbn. rewrite IH by (done || lia). by rewrite extend_assoc.
Qed.

(** One caption whose encoding fits the row and the vocabulary: its
    triples, one per prefix, after those already collected. *)
Lemma caption_step_ok (feat : F) b line :
  length (Keras.texts_to_sequences tokenizer line) <= max_length ->
  Forall (fun t => t < vocab_size) (Keras.texts_to_sequences tokenizer line) ->
  Main.caption_step tokenizer max_length vocab_size feat b line
  = Some (extend b (examples max_length vocab_size feat
                             (Keras.texts_to_sequences tokenizer line))).
Proof.
  intros Hlen Hvoc. unfold Main.caption_step, examples.
  set (sq := Keras.texts_to_sequences tokenizer line) in *.
  destruct (decide (length sq = 0)) as [E|Hne].
  - rewrite E. cbn. destruct b. unfold extend. cbn. by rewrite !(right_id_L [] (++)).
  - apply prefix_loop_ok; (done || lia).
Qed.

End generator_facts.

(** ** Decoding: the unknown index *)

(** C2, as stated, fails: decoding can end before [max_length] predictions
    without the end marker being predicted. With a model that predicts the
    padding index, the loop makes one prediction out of three and stops. *)
Lemma decoding_stops_without_end_marker :
  ~ (forall (model : @Main.Predictor unit) tokenizer photo_features max_length text trace,
       Main.generate_caption_run model tokenizer photo_features max_length = Some (text, trace) ->
       length trace < max_length ->
       exists yhat, last trace = Some yhat
                    /\ Dict.get yhat (Keras.index_word tokenizer) = Some "endseq").
Proof.
  intros H.
  destruct (H always_zero tokenizer0 tt 3 "startseq" [0] eq_refl ltac:(cbn; lia))
    as (yhat & Hlast & Hword).
  cbn in Hlast. injection Hlast as <-. vm_compute in Hword. discriminate Hword.
Qed.

(** The theorem at a model that predicts the padding index. *)
Lemma generate_caption_terminates_witness :
  exists text trace,
    Main.generate_caption_run always_zero tokenizer0 tt 3 = Some (text, trace)
    /\ Main.generate_caption always_zero tokenizer0 tt 3 = Some text
    /\ length trace <= 3
    /\ (length trace < 3 -> exists yhat, last trace = Some yhat /\ stops tokenizer0 yhat)
    /\ (forall i yhat, trace !! i = Some yhat -> S i < length trace ->
                       continues tokenizer0 yhat).
Proof. apply (generate_caption_terminates always_zero tokenizer0 tt 3). Defined.

(** C10. The decoding loop has a third way to end. When the predicted
    index has no word in the tokenizer's index-to-word mapping, the loop
    ends at once: the text so far is returned with nothing appended,
    whatever the number of rounds left and although the end marker was not
    predicted. The padding index 0 is such an index for every fitted
    tokenizer. *)
Theorem decoding_breaks_on_unknown_index :
  (forall F (model : @Main.Predictor F) tokenizer photo_features max_length n in_text sequence,
     Keras.pad_sequences max_length (Keras.texts_to_sequences tokenizer in_text)
     = Some sequence ->
     Dict.get (model photo_features sequence) (Keras.index_word tokenizer) = None ->
     Main.decode_loop model tokenizer photo_features max_length (S n) in_text
     = Some (in_text, [model photo_features sequence]))
  /\ (forall texts, Dict.get 0 (Keras.index_word (Keras.fit_on_texts texts)) = None).
Proof.
  split.
  - intros F model tokenizer photo max_length n in_text sequence.
    apply decode_loop_unknown_index.
  - apply fit_zero_unmapped.
Qed.

(** The theorem after one word, with four of five rounds left: the padding
    index is predicted and the text stays "startseq a". *)
Lemma decoding_breaks_on_unknown_index_witness :
  Main.decode_loop always_zero tokenizer0 tt 5 4 "startseq a" = Some ("startseq a", [0]).
Proof.
  exact (proj1 decoding_breaks_on_unknown_index unit always_zero tokenizer0 tt 5 3
               "startseq a" [0; 0; 0; 1; 2] eq_refl eq_refl).
Defined.

(** ** [predict_caption] *)

Section predict_facts.
Context {F : Type}.
Variables model_path tokenizer_path max_length_path image_path : string.

(** C8, as the code has it. [predict_caption] gives a caption only when
    the tokenizer, the max length and the model weights are all present and
    readable; when one of these three files is absent it prints the
    diagnostic naming that file and gives no caption. The embedding cache is
    not among them: [predict_caption] never reads it. *)
Theorem predict_needs_three_artifacts (env : @Main.Environment F) :
  (forall final_caption,
     Main.predict_caption model_path tokenizer_path max_length_path image_path env
     = Main.Caption final_caption ->
     exists tokenizer max_length model,
       Main.tokenizer_pkl env = Some (Some tokenizer)
       /\ Main.max_length_pkl env = Some (Some max_length)
       /\ Main.model_h5 env = Some (Some model))
  /\ (Main.model_h5 env = None ->
      Main.predict_caption model_path tokenizer_path max_length_path image_path env
      = Main.Failed ("Error: Model not found at " +:+ model_path
                     +:+ ". Please train the model first."))
  /\ (Main.model_h5 env <> None -> Main.tokenizer_pkl env = None ->
      Main.predict_caption model_path tokenizer_path max_length_path image_path env
      = Main.Failed ("Error: Tokenizer not found at " +:+ tokenizer_path
                     +:+ ". Please train the model first."))
  /\ (Main.model_h5 env <> None -> Main.tokenizer_pkl env <> None ->
      Main.max_length_pkl env = None ->
      Main.predict_caption model_path tokenizer_path max_length_path image_path env
      = Main.Failed ("Error: Max length not found at " +:+ max_length_path
                     +:+ ". Please train the model first."))
  /\ (forall cache,
        Main.predict_caption model_path tokenizer_path max_length_path image_path env
        = Main.predict_caption model_path tokenizer_path max_length_path image_path
            {| Main.features_pkl := cache;
               Main.tokenizer_pkl := Main.tokenizer_pkl env;
               Main.max_length_pkl := Main.max_length_pkl env;
               Main.model_h5 := Main.model_h5 env;
               Main.query_image := Main.query_image env |}).
Proof.
  unfold Main.predict_caption. split; [|split; [|split; [|split]]].
  - intros final_caption.
    destruct (Main.model_h5 env) as [[model|]|], (Main.tokenizer_pkl env) as [[tok|]|],
      (Main.max_length_pkl env) as [[ml|]|]; try done.
    intros _. by exists tok, ml, model.
  - by intros ->.
  - intros Hm ->. by destruct (Main.model_h5 env).
  - intros Hm Ht ->. by destruct (Main.model_h5 env), (Main.tokenizer_pkl env).
  - done.
Qed.

End predict_facts.

(** The theorem at a models directory without the embedding cache. *)
Lemma predict_needs_three_artifacts_witness :
  exists tokenizer max_length model,
    Main.tokenizer_pkl no_cache = Some (Some tokenizer)
    /\ Main.max_length_pkl no_cache = Some (Some max_length)
    /\ Main.model_h5 no_cache = Some (Some model).
Proof.
  apply (proj1 (predict_needs_three_artifacts "m.h5" "t.pkl" "l.pkl" "q.jpg" no_cache) "cat").
  reflexivity.
Defined.

(** C8, as stated, fails: a caption is produced although the embedding
    cache is absent. *)
Lemma predict_without_embedding_cache :
  ~ (forall (env : @Main.Environment unit) model_path tokenizer_path max_length_path
            image_path final_caption,
       Main.predict_caption model_path tokenizer_path max_length_path image_path env
       = Main.Caption final_caption ->
       is_Some (Main.features_pkl env)).
Proof.
  intros H.
  destruct (H no_cache "m.h5" "t.pkl" "l.pkl" "q.jpg" "cat" eq_refl) as [cache Hcache].
  discriminate Hcache.
Qed.

(** ** The train path *)

Section loaded_facts.

Lemma set_set {V} k (v v' : V) (d : Dict.t string V) :
  Dict.set k v (Dict.set k v' d) = Dict.set k v d.
Proof.
  induction d as [|[k0 v0] d IH]; cbn.
  - by rewrite decide_True.
  - destruct (decide (k0 = k)) as [->|Hne]; cbn.
    + by rewrite decide_True.
    + by rewrite decide_False, IH.
Qed.

(** The two statements of the source amount to one assignment. *)
Lemma add_description_set image_id description mapping :
  DataLoader.add_description image_id description mapping
  = Dict.set image_id (default [] (Dict.get image_id mapping) ++ [description]) mapping.
Proof.
  unfold DataLoader.add_description, Dict.mem. case_bool_decide as Hm; [done|].
  rewrite get_set_same, set_set. destruct (Dict.get image_id mapping); [|done].
  exfalso. apply Hm. eauto.
Qed.

Lemma load_line_nonempty fs mapping line :
  Forall (fun kv : string * list string => kv.2 <> []) mapping ->
  Forall (fun kv : string * list string => kv.2 <> []) (DataLoader.load_line fs mapping line).
Proof.
  intros Hm. unfold DataLoader.load_line.
  destruct (Py.split1 _ _ _) as [|p0 [|p1 ps]]; try done.
  destruct (negb _); [done|]. rewrite add_description_set.
  apply set_Forall; [done|]. cbn. by destruct (default _ _).
Qed.

(** Every image of the loaded mapping has a caption. *)
Lemma load_descriptions_nonempty path fs :
  Forall (fun kv : string * list string => kv.2 <> [])
         (DataLoader.load_descriptions path fs).1.
Proof.
  unfold DataLoader.load_descriptions.
  destruct (DataLoader.captions_lines fs) as [[|header lines]|]; cbn; try done.
  enough (forall m, Forall (fun kv : string * list string => kv.2 <> []) m ->
            Forall (fun kv : string * list string => kv.2 <> [])
                   (foldl (DataLoader.load_line fs) m lines)) as H by by apply H.
  induction lines as [|line lines IH]; intros m Hm; cbn [foldl]; [done|].
  by apply IH, load_line_nonempty.
Qed.

Lemma clean_descriptions_nonempty d :
  Forall (fun kv : string * list string => kv.2 <> []) d ->
  Forall (fun kv : string * list string => kv.2 <> []) (DataLoader.clean_descriptions d).
Proof.
  intros Hd. rewrite clean_descriptions_build. apply build_Forall; [done|].
  apply Forall_fmap. eapply Forall_impl; [exact Hd|].
  intros [k l] Hl. cbn in *. rewrite clean_list_fmap. by destruct l.
Qed.

Lemma clean_descriptions_keys d k :
  k ∈ Dict.keys (DataLoader.clean_descriptions d) <-> k ∈ Dict.keys d.
Proof.
  rewrite clean_descriptions_build, build_keys_elem. unfold Dict.keys.
  rewrite <- list_fmap_compose. split; [|by right]. by intros [?%elem_of_nil|?].
Qed.

Lemma lines_single k l : DataLoader.descriptions_to_lines [(k, l)] = frame <$> l.
Proof. rewrite descriptions_to_lines_bind. cbn. by rewrite (right_id_L [] (++)). Qed.

Lemma cached_keys_NoDup {F} (all_features : Dict.t string F) d :
  NoDup (Dict.keys d) -> NoDup (Dict.keys (cached all_features d)).
Proof.
  unfold cached, Dict.keys. induction d as [|[k l] d IH]; [done|].
  rewrite fmap_cons. intros [Hk Hd]%NoDup_cons. rewrite filter_cons.
  destruct (decide _); [|by apply IH].
  rewrite fmap_cons. apply NoDup_cons. split; [|by apply IH].
  intros (kv & Hkv & [_ Hin]%list_elem_of_filter)%list_elem_of_fmap.
  apply Hk. apply list_elem_of_fmap. by exists kv.
Qed.

Lemma frame_entry_keys d : Dict.keys (frame_entry <$> d) = Dict.keys d.
Proof. unfold Dict.keys. by rewrite <- list_fmap_compose. Qed.

Lemma elem_of_framed {F} (all_features : Dict.t string F) d img desc_lines :
  (img, desc_lines) ∈ frame_entry <$> cached all_features d
  <-> exists l, (img, l) ∈ d /\ Dict.mem img all_features = true
                /\ desc_lines = frame <$> l.
Proof.
  rewrite list_elem_of_fmap. unfold cached. split.
  - intros ([k l] & [= -> ->] & [Hm Hin]%list_elem_of_filter). by exists l.
  - intros (l & Hin & Hm & ->). exists (img, l). split; [done|].
    by apply list_elem_of_filter.
Qed.

End loaded_facts.

Section train_facts.
Context {F : Type}.
Variable all_features : Dict.t string F.
Variable captions_filepath : string.
Variable fs : DataLoader.FileSystem.

Local Abbreviation loaded := (DataLoader.load_descriptions captions_filepath fs).1.
Local Abbreviation cleaned := (DataLoader.clean_descriptions loaded).
Local Abbreviation lines := (DataLoader.descriptions_to_lines cleaned).
Local Abbreviation fitted := (Keras.fit_on_texts lines).

(** What [train_model] hands to the generator, when it goes on. *)
Lemma train_model_fits tokenizer max_length vocab_size filtered image_ids :
  Main.train_model all_features captions_filepath fs
  = Main.Fits tokenizer max_length vocab_size filtered image_ids ->
  tokenizer = fitted
  /\ max_length = DataLoader.max_len cleaned
  /\ vocab_size = length (Keras.word_index fitted) + 1
  /\ filtered = frame_entry <$> cached all_features cleaned
  /\ image_ids = Dict.keys filtered
  /\ filtered <> [].
Proof.
  unfold Main.train_model.
  set (kvs := (fun kv : string * list string =>
                 (kv.1, DataLoader.descriptions_to_lines [(kv.1, kv.2)])) <$> _).
  assert (kvs = frame_entry <$> cached all_features cleaned) as ->.
  { subst kvs. apply list_fmap_ext. intros _ [k l] _. unfold frame_entry.
    by rewrite lines_single. }
  rewrite build_fresh.
  2:{ rewrite app_nil_l, frame_entry_keys.
      apply cached_keys_NoDup, clean_descriptions_NoDup. }
  rewrite app_nil_l.
  destruct (frame_entry <$> cached all_features cleaned) as [|kv kvs] eqn:E; [done|].
  by intros [= <- <- <- <- <-].
Qed.

Lemma train_model_aborts message :
  Main.train_model all_features captions_filepath fs = Main.Aborted message ->
  message = "No matching image features found for descriptions. Training aborted."
  /\ cached all_features cleaned = [].
Proof.
  unfold Main.train_model.
  set (kvs := (fun kv : string * list string =>
                 (kv.1, DataLoader.descriptions_to_lines [(kv.1, kv.2)])) <$> _).
  assert (kvs = frame_entry <$> cached all_features cleaned) as ->.
  { subst kvs. apply list_fmap_ext. intros _ [k l] _. unfold frame_entry.
    by rewrite lines_single. }
  rewrite build_fresh.
  2:{ rewrite app_nil_l, frame_entry_keys.
      apply cached_keys_NoDup, clean_descriptions_NoDup. }
  rewrite app_nil_l.
  destruct (cached all_features cleaned) as [|kv kvs] eqn:E; [|done].
  by intros [= <-].
Qed.

(** A line of the fitted corpus is encoded token for token, fits the row,
    and stays inside the vocabulary. *)
Lemma corpus_line_encoding line :
  line ∈ lines ->
  length (Keras.texts_to_sequences fitted line) = length (Py.split line)
  /\ length (Keras.texts_to_sequences fitted line) <= DataLoader.max_len cleaned
  /\ Forall (fun t => t < length (Keras.word_index fitted) + 1)
            (Keras.texts_to_sequences fitted line).
Proof.
  intros Hline. destruct (fit_encodes _ _ Hline) as [Hlen Hrange].
  rewrite (clean_text_words line) in Hlen by by eapply cleaned_lines_clean.
  split; [done|split].
  - rewrite Hlen. by apply max_len_upper.
  - eapply Forall_impl; [exact Hrange|]. cbn. lia.
Qed.

Lemma framed_line_in_corpus img desc_lines line :
  (img, desc_lines) ∈ frame_entry <$> cached all_features cleaned ->
  line ∈ desc_lines -> line ∈ lines.
Proof.
  intros (l & Hin & _ & ->)%elem_of_framed (desc & -> & Hdesc)%list_elem_of_fmap.
  apply elem_of_lines. by exists img, l, desc.
Qed.

Lemma examples_length max_length vocab_size (feat : F) sq :
  length (Main.X1 (examples max_length vocab_size feat sq)) = length sq - 1
  /\ length (Main.X2 (examples max_length vocab_size feat sq)) = length sq - 1
  /\ length (Main.y (examples max_length vocab_size feat sq)) = length sq - 1.
Proof. unfold examples. cbn. by rewrite length_replicate, !length_fmap, length_seq. Qed.

Lemma examples_lookup max_length vocab_size (feat : F) sq i :
  1 <= i < length sq ->
  Main.X1 (examples max_length vocab_size feat sq) !! (i - 1) = Some feat
  /\ Main.X2 (examples max_length vocab_size feat sq) !! (i - 1)
     = Some (replicate (max_length - i) 0 ++ take i sq)
  /\ Main.y (examples max_length vocab_size feat sq) !! (i - 1)
     = Some (<[sq !!! i := 1]> (replicate vocab_size 0)).
Proof.
  intros Hi. unfold examples. cbn.
  rewrite lookup_replicate_2 by lia.
  rewrite !list_lookup_fmap, lookup_seq_lt by lia. cbn.
  replace (S (i - 1)) with i by lia.
  unfold left_pad, one_hot. by rewrite length_take_le by lia.
Qed.

End train_facts.

Section train_batches.
Context {F : Type}.
Variable all_features : Dict.t string F.
Variable captions_filepath : string.
Variable fs : DataLoader.FileSystem.

Local Abbreviation loaded := (DataLoader.load_descriptions captions_filepath fs).1.
Local Abbreviation cleaned := (DataLoader.clean_descriptions loaded).
Local Abbreviation lines := (DataLoader.descriptions_to_lines cleaned).
Local Abbreviation fitted := (Keras.fit_on_texts lines).
Local Abbreviation ml0 := (DataLoader.max_len cleaned).
Local Abbreviation vs0 := (length (Keras.word_index fitted) + 1).
Local Abbreviation filtered0 := (frame_entry <$> cached all_features cleaned).

(** Every caption of the corpus gives a triple at least. *)
Lemma caption_loop_ok (feat : F) ls : forall b,
  (forall line, line ∈ ls -> line ∈ lines) ->
  exists b', foldlM (Main.caption_step fitted ml0 vs0 feat) b ls = Some b'
             /\ length (Main.X1 b) + length ls <= length (Main.X1 b').
Proof.
  induction ls as [|line ls IH]; intros b Hls.
  - exists b. cbn. split; [done|lia].
  - pose proof (Hls line ltac:(left)) as Hline.
    destruct (corpus_line_encoding captions_filepath fs line Hline)
      as (Hlen & Hfit & Hvoc).
    cbn [foldlM]. rewrite caption_step_ok by done. cbn [mbind option_bind].
    destruct (IH (extend b (examples ml0 vs0 feat
                              (Keras.texts_to_sequences fitted line))))
      as (b' & -> & Hb'); [intros l Hl; apply Hls; by right|].
    exists b'. split; [done|].
    apply elem_of_lines in Hline as (k & l & desc & _ & _ & ->).
    rewrite split_frame_length in Hlen.
    unfold extend, examples in Hb'. cbn in Hb'.
    rewrite length_app, length_replicate in Hb'. cbn. lia.
Qed.

(** Every image handed to the generator gives a triple at least. *)
Lemma image_step_ok b img :
  img ∈ Dict.keys filtered0 ->
  exists b', Main.image_step filtered0 all_features fitted ml0 vs0 b img = Some b'
             /\ length (Main.X1 b) + 1 <= length (Main.X1 b').
Proof.
  intros ([k desc_lines] & Hk & Hin)%list_elem_of_fmap. cbn in Hk. subst k.
  pose proof Hin as (l & Hl & Hmem & ->)%elem_of_framed.
  assert (l <> []) as Hne.
  { pose proof (clean_descriptions_nonempty _
                  (load_descriptions_nonempty captions_filepath fs)) as HF.
    rewrite Forall_forall in HF. apply (HF _ Hl). }
  apply mem_keys in Hmem.
  destruct (Dict.get img all_features) as [feat|] eqn:Hfeat;
    [|by apply get_None_keys in Hfeat].
  unfold Main.image_step. rewrite (elem_get img (frame <$> l)); [|
    rewrite frame_entry_keys; apply cached_keys_NoDup, clean_descriptions_NoDup|done].
  cbn. rewrite Hfeat. cbn.
  destruct (caption_loop_ok feat (frame <$> l) b) as (b' & Hb' & Hlen).
  { intros line Hline. by eapply framed_line_in_corpus. }
  exists b'. split; [done|]. rewrite length_fmap in Hlen. destruct l; [done|]. cbn in Hlen. lia.
Qed.

Lemma image_loop_ok ids : forall b,
  (forall img, img ∈ ids -> img ∈ Dict.keys filtered0) ->
  exists b',
    foldlM (Main.image_step filtered0 all_features fitted ml0 vs0) b ids = Some b'
    /\ length (Main.X1 b) + length ids <= length (Main.X1 b').
Proof.
  induction ids as [|img ids IH]; intros b Hids.
  - exists b. cbn. split; [done|lia].
  - destruct (image_step_ok b img (Hids img ltac:(left))) as (b1 & Hb1 & Hlen1).
    destruct (IH b1) as (b' & Hb' & Hlen'); [intros i Hi; apply Hids; by right|].
    exists b'. cbn [foldlM]. rewrite Hb1. cbn. split; [done|]. cbn. lia.
Qed.

(** C3. In the train path the images handed to the generator are exactly
    those that have a caption in the loaded mapping and a cached embedding:
    an image without caption or without embedding is left out. Every image
    of the loaded mapping, and so every image handed over, has a caption at
    least. When no image is left, [train_model] prints its abort message and
    returns; when it goes on, the generator has a training triple for every
    image handed over, so it never trains on nothing. *)
Theorem train_model_excludes_and_aborts :
  Forall (fun kv : string * list string => kv.2 <> []) loaded
  /\ match Main.train_model all_features captions_filepath fs with
     | Main.Aborted message =>
         message = "No matching image features found for descriptions. Training aborted."
         /\ (forall img, ~ (img ∈ Dict.keys loaded /\ img ∈ Dict.keys all_features))
     | Main.Fits tokenizer max_length vocab_size filtered image_ids =>
         image_ids = Dict.keys filtered
         /\ (forall img,
               img ∈ image_ids <-> img ∈ Dict.keys loaded /\ img ∈ Dict.keys all_features)
         /\ (forall img desc_lines, (img, desc_lines) ∈ filtered -> desc_lines <> [])
         /\ exists b,
              Main.make_batch filtered all_features tokenizer max_length vocab_size image_ids
              = Some b
              /\ 0 < length image_ids <= length (Main.X1 b)
     end.
Proof.
  split; [apply load_descriptions_nonempty|].
  assert (forall img, img ∈ Dict.keys filtered0
                      <-> img ∈ Dict.keys loaded /\ img ∈ Dict.keys all_features) as Hkeys.
  { intros img.
    rewrite <- (clean_descriptions_keys loaded img), <- (mem_keys img all_features). split.
    - intros ([k dl] & Hk & (l & Hl & Hm & _)%elem_of_framed)%list_elem_of_fmap.
      cbn in Hk. subst k. split; [|done]. apply list_elem_of_fmap. by exists (img, l).
    - intros [([k l] & Hk & Hl)%list_elem_of_fmap Hm]. cbn in Hk. subst k.
      apply list_elem_of_fmap. exists (img, frame <$> l). split; [done|].
      apply elem_of_framed. by exists l. }
  destruct (Main.train_model all_features captions_filepath fs)
    as [message|tok ml vs filt ids] eqn:Htrain.
  - apply train_model_aborts in Htrain as [-> Hempty]. split; [done|].
    intros img Himg%Hkeys. rewrite Hempty in Himg. by apply elem_of_nil in Himg.
  - apply train_model_fits in Htrain as (-> & -> & -> & -> & -> & Hne).
    split; [done|split; [done|split]].
    + intros img desc_lines (l & Hl & _ & ->)%elem_of_framed.
      pose proof (clean_descriptions_nonempty _
                    (load_descriptions_nonempty captions_filepath fs)) as HF.
      rewrite Forall_forall in HF. specialize (HF _ Hl). cbn in HF. by destruct l.
    + destruct (image_loop_ok (Dict.keys filtered0)
                  {| Main.X1 := []; Main.X2 := []; Main.y := [] |})
        as (b & Hb & Hlen); [done|].
      exists b. split; [done|]. cbn in Hlen. split; [|lia].
      unfold Dict.keys. rewrite length_fmap. destruct filtered0; [done|]. cbn. lia.
Qed.

End train_batches.

(** ** The train path on an example *)

(** The four triples of that caption, as the generator collects them. *)
Example generator_four_triples :
  Main.make_batch [("img1.jpg", [line1])] cache2 tokenizer1 5 6 ["img1.jpg"]
  = Some {| Main.X1 := [[7; 1]; [7; 1]; [7; 1]; [7; 1]];
            Main.X2 := [[0; 0; 0; 0; 1]; [0; 0; 0; 1; 2]; [0; 0; 1; 2; 3]; [0; 1; 2; 3; 4]];
            Main.y := [[0; 0; 1; 0; 0; 0]; [0; 0; 0; 1; 0; 0];
                       [0; 0; 0; 0; 1; 0]; [0; 0; 0; 0; 0; 1]] |}.
Proof. vm_compute. reflexivity. Qed.

(** With that corpus [train_model] goes on, with the first image only. *)
Example train_model_goes_on :
  Main.train_model cache2 "captions.txt" captions1
  = Main.Fits tokenizer1 5 6 [("img1.jpg", [line1])] ["img1.jpg"].
Proof. vm_compute. reflexivity. Qed.

(** Without a cached embedding for a captioned image, it aborts. *)
Example train_model_aborts_without_cache :
  Main.train_model [("img2.jpg", [7; 2])] "captions.txt" captions1
  = Main.Aborted "No matching image features found for descriptions. Training aborted.".
Proof. vm_compute. reflexivity. Qed.

(** A run of the decoder that ends on the end marker, and the caption
    reported for it. *)
Example predict_caption_demo :
  Main.predict_caption "m.h5" "t.pkl" "l.pkl" "q.jpg" no_cache = Main.Caption "cat".
Proof. vm_compute. reflexivity. Qed.

(** * Further properties of the code *)

(** ** [load_descriptions]: what the mapping holds *)

Section load_more.

Lemma get_set_ne {K V} `{EqDecision K} (k k' : K) (v : V) (d : Dict.t K V) :
  k <> k' -> Dict.get k' (Dict.set k v d) = Dict.get k' d.
Proof.
  intros Hne. induction d as [|[k0 v0] d IH]; cbn.
  - by rewrite decide_False.
  - destruct (decide (k0 = k)) as [->|Hk]; cbn.
    + by rewrite !decide_False.
    + destruct (decide (k0 = k')); [done|apply IH].
Qed.

Lemma load_line_parse fs mapping line :
  DataLoader.load_line fs mapping line
  = match parse_line line with
    | Some (image_id, description) =>
        if DataLoader.image_exists fs image_id
        then DataLoader.add_description image_id description mapping
        else mapping
    | None => mapping
    end.
Proof.
  unfold DataLoader.load_line, parse_line.
  destruct (Py.split1 _ _ _) as [|p0 [|p1 ps]]; try done.
  by destruct (DataLoader.image_exists fs (Py.strip p0)).
Qed.

Lemma captions_of_snoc img lines line :
  captions_of img (lines ++ [line])
  = captions_of img lines
    ++ match parse_line line with
       | Some (image_id, description) =>
           if decide (image_id = img) then [description] else []
       | None => []
       end.
Proof.
  unfold captions_of. rewrite omap_app. f_equal. cbn.
  destruct (parse_line line) as [[image_id description]|]; [|done].
  by destruct (decide (image_id = img)).
Qed.

Lemma load_line_holds fs mapping done line :
  holds fs mapping done ->
  holds fs (DataLoader.load_line fs mapping line) (done ++ [line]).
Proof.
  intros Hm img. rewrite load_line_parse, captions_of_snoc.
  destruct (parse_line line) as [[image_id description]|].
  2:{ rewrite (right_id_L [] (++)). apply Hm. }
  destruct (DataLoader.image_exists fs image_id) eqn:Hex.
  - rewrite add_description_set.
    destruct (decide (image_id = img)) as [->|Hne].
    + rewrite get_set_same, Hm, Hex.
      destruct (captions_of img done); by cbn.
    + rewrite get_set_ne by done. rewrite (right_id_L [] (++)). apply Hm.
  - destruct (decide (image_id = img)) as [->|Hne].
    + rewrite Hm, Hex. done.
    + rewrite (right_id_L [] (++)). apply Hm.
Qed.

Lemma load_lines_hold fs lines : forall mapping done,
  holds fs mapping done ->
  holds fs (foldl (DataLoader.load_line fs) mapping lines) (done ++ lines).
Proof.
  induction lines as [|line lines IH]; intros mapping done Hm; cbn [foldl].
  - by rewrite (right_id_L [] (++)).
  - replace (done ++ line :: lines) with ((done ++ [line]) ++ lines)
      by by rewrite <- (assoc_L (++)).
    by apply IH, load_line_holds.
Qed.

(** X1. The mapping [load_descriptions] returns for a readable file holds,
    for every image whose file exists, the captions of all the lines after
    the first that name the image, in the order of the lines and with
    repetitions, and has no entry for an image without such a line or
    without a file. The first line is skipped whatever it holds. *)
Theorem load_descriptions_collects path fs header lines img :
  DataLoader.captions_lines fs = Some (header :: lines) ->
  Dict.get img (DataLoader.load_descriptions path fs).1
  = if DataLoader.image_exists fs img then entry_of (captions_of img lines) else None.
Proof.
  intros Hfs. unfold DataLoader.load_descriptions. rewrite Hfs. cbn [fst].
  apply (load_lines_hold fs lines [] []). intros img'. cbn.
  by destruct (DataLoader.image_exists fs img').
Qed.

End load_more.

(** The theorem at a file of four caption lines, two of them the same, one
    for an image that is not there. *)
Lemma load_descriptions_collects_witness :
  Dict.get "b.jpg"
    (DataLoader.load_descriptions "captions.txt"
       {| DataLoader.captions_lines :=
            Some ["image,caption"; "b.jpg,One"; "a.jpg,Two"; "b.jpg,One"; "c.jpg,Three"];
          DataLoader.image_exists := fun s => bool_decide (s = "a.jpg" \/ s = "b.jpg") |}).1
  = Some ["One"; "One"].
Proof.
  rewrite (load_descriptions_collects "captions.txt" _ "image,caption"
             ["b.jpg,One"; "a.jpg,Two"; "b.jpg,One"; "c.jpg,Three"] "b.jpg");
    reflexivity.
Defined.

(** ** The shape of cleaned captions, lines and vocabulary *)

Section shape_facts.

Lemma split_clean_caption desc :
  Py.split (DataLoader.clean_caption desc) = caption_tokens desc.
Proof. apply split_join, caption_tokens_clean. Qed.

(** X2. A cleaned caption is in normal form: its tokens are non-empty
    words of lowercase letters, it is those tokens joined by single blanks
    (no blank at either end, no double blank), and it has no more tokens
    than the caption it comes from. *)
Theorem clean_caption_normal_form desc :
  Forall (fun w => clean_token w = true) (Py.split (DataLoader.clean_caption desc))
  /\ Py.join " " (Py.split (DataLoader.clean_caption desc)) = DataLoader.clean_caption desc
  /\ length (Py.split (DataLoader.clean_caption desc)) <= length (Py.split desc).
Proof.
  rewrite split_clean_caption. split; [apply caption_tokens_clean|split; [done|]].
  unfold caption_tokens. etrans; [apply length_filter|]. by rewrite !length_fmap.
Qed.

Lemma get_fmap_values {V W} (f : V -> W) (d : Dict.t string V) k :
  Dict.get k ((fun kv : string * V => (kv.1, f kv.2)) <$> d) = f <$> Dict.get k d.
Proof.
  induction d as [|[k0 v0] d IH]; [done|]. cbn.
  destruct (decide (k0 = k)); [done|apply IH].
Qed.

(** X3. On a dictionary, [clean_descriptions] works caption by caption:
    the images stay the same, in the same order, and each image keeps as
    many captions as it had, every one replaced by its cleaned form, also
    when that form is the empty text. *)
Theorem clean_descriptions_pointwise (descriptions : Dict.t string (list string)) :
  NoDup (Dict.keys descriptions) ->
  Dict.keys (DataLoader.clean_descriptions descriptions) = Dict.keys descriptions
  /\ forall img,
       Dict.get img (DataLoader.clean_descriptions descriptions)
       = (fun l : list string => DataLoader.clean_caption <$> l) <$> Dict.get img descriptions.
Proof.
  intros Hnd. rewrite clean_descriptions_fmap by done. split.
  - unfold Dict.keys. by rewrite <- list_fmap_compose.
  - intros img. unfold clean_pair.
    rewrite (get_fmap_values DataLoader.clean_list).
    destruct (Dict.get img descriptions); [|done]. cbn. by rewrite clean_list_fmap.
Qed.

(** The theorem at a mapping with a caption of digits only. *)
Lemma clean_descriptions_pointwise_witness :
  Dict.keys (DataLoader.clean_descriptions [("a.jpg", ["A Dog!"; "123 4"]); ("b.jpg", [])])
  = ["a.jpg"; "b.jpg"]
  /\ forall img,
       Dict.get img (DataLoader.clean_descriptions
                       [("a.jpg", ["A Dog!"; "123 4"]); ("b.jpg", [])])
       = (fun l : list string => DataLoader.clean_caption <$> l)
           <$> Dict.get img [("a.jpg", ["A Dog!"; "123 4"]); ("b.jpg", [])].
Proof.
  apply (clean_descriptions_pointwise [("a.jpg", ["A Dog!"; "123 4"]); ("b.jpg", [])]).
  unfold Dict.keys. cbn. repeat constructor; rewrite ?elem_of_cons, ?elem_of_nil;
    intuition congruence.
Defined.

Lemma lines_length d :
  length (DataLoader.descriptions_to_lines d) = sum_list ((fun kv => length kv.2) <$> d).
Proof.
  rewrite descriptions_to_lines_bind.
  induction d as [|[k l] d IH]; [done|]. cbn.
  by rewrite length_app, length_fmap, IH.
Qed.

(** X4. [descriptions_to_lines] gives one line per caption, and every line
    is its caption between the two markers: its tokens are [startseq], the
    tokens of the caption, and [endseq], so two more than the caption has. *)
Theorem descriptions_to_lines_framed (descriptions : Dict.t string (list string)) :
  length (DataLoader.descriptions_to_lines descriptions)
  = sum_list ((fun kv => length kv.2) <$> descriptions)
  /\ forall line,
       line ∈ DataLoader.descriptions_to_lines descriptions ->
       exists img desc_list desc,
         (img, desc_list) ∈ descriptions /\ desc ∈ desc_list
         /\ Py.split line = "startseq" :: Py.split desc ++ ["endseq"]
         /\ length (Py.split line) = length (Py.split desc) + 2.
Proof.
  split; [apply lines_length|].
  intros line (img & l & desc & Hl & Hdesc & ->)%elem_of_lines.
  exists img, l, desc. by rewrite split_frame_length, split_frame.
Qed.

Lemma lines_nil d :
  DataLoader.descriptions_to_lines d = [] <-> Forall (fun kv => kv.2 = []) d.
Proof.
  rewrite descriptions_to_lines_bind. induction d as [|[k l] d IH]; cbn.
  - split; [by constructor|done].
  - rewrite Forall_cons. cbn. rewrite <- IH. split.
    + intros [H1 H2]%app_eq_nil. split; [by destruct l|done].
    + intros [-> ->]. done.
Qed.

Lemma max_len_lower descriptions :
  DataLoader.descriptions_to_lines descriptions <> [] ->
  2 <= DataLoader.max_len descriptions.
Proof.
  intros Hne. destruct (DataLoader.descriptions_to_lines descriptions) as [|line ls] eqn:E;
    [done|].
  assert (line ∈ DataLoader.descriptions_to_lines descriptions) as Hin by (rewrite E; left).
  pose proof (max_len_upper _ _ Hin) as Hup.
  apply elem_of_lines in Hin as (k & l & desc & _ & _ & ->).
  rewrite split_frame_length in Hup. lia.
Qed.

(** X5. Without any caption (an empty mapping, or images with empty caption
    lists only) the vocabulary is empty and [max_len] is 0. With a caption,
    whatever it is, the vocabulary holds both markers and [max_len] is 2 at
    least. *)
Theorem vocabulary_and_max_len_edges (descriptions : Dict.t string (list string)) :
  (Forall (fun kv => kv.2 = []) descriptions ->
   DataLoader.to_vocabulary descriptions = ∅ /\ DataLoader.max_len descriptions = 0)
  /\ (~ Forall (fun kv => kv.2 = []) descriptions ->
      "startseq" ∈ DataLoader.to_vocabulary descriptions
      /\ "endseq" ∈ DataLoader.to_vocabulary descriptions
      /\ 2 <= DataLoader.max_len descriptions).
Proof.
  rewrite <- lines_nil. split.
  - intros E. unfold DataLoader.to_vocabulary, DataLoader.max_len. by rewrite E.
  - intros Hne.
    destruct (DataLoader.descriptions_to_lines descriptions) as [|line ls] eqn:E; [done|].
    assert (line ∈ DataLoader.descriptions_to_lines descriptions) as Hin by (rewrite E; left).
    pose proof Hin as (k & l & desc & _ & _ & Hline)%elem_of_lines.
    assert (forall w, w ∈ Py.split line -> w ∈ DataLoader.to_vocabulary descriptions) as Hvoc.
    { intros w Hw. unfold DataLoader.to_vocabulary. apply vocabulary_lines. right.
      by exists line. }
    rewrite Hline, split_frame in Hvoc. repeat split.
    + apply Hvoc. left.
    + apply Hvoc. right. apply elem_of_app. right. left.
    + apply max_len_lower. by rewrite E.
Qed.

(** The theorem at a mapping whose only caption is empty. *)
Lemma vocabulary_and_max_len_edges_witness :
  "startseq" ∈ DataLoader.to_vocabulary [("a.jpg", []); ("b.jpg", [""])]
  /\ "endseq" ∈ DataLoader.to_vocabulary [("a.jpg", []); ("b.jpg", [""])]
  /\ 2 <= DataLoader.max_len [("a.jpg", []); ("b.jpg", [""])].
Proof.
  apply (proj2 (vocabulary_and_max_len_edges [("a.jpg", []); ("b.jpg", [""])])).
  intros H. apply Forall_cons in H as [_ H]. apply Forall_cons in H as [H _].
  discriminate H.
Defined.

End shape_facts.

(** ** The fitted tokenizer: indices and words *)

Section tokenizer_more.

(** The pairs of a dictionary, the other way round. *)
Lemma swap_zip {A B} (l : list A) (k : list B) :
  (fun ab : A * B => (ab.2, ab.1)) <$> zip l k = zip k l.
Proof.
  revert k. induction l as [|x l IH]; intros [|y k]; cbn; try done.
  by rewrite IH.
Qed.

Lemma fit_index_word_zip texts :
  Keras.index_word (Keras.fit_on_texts texts)
  = zip (seq 1 (length (sorted_voc texts))) (sorted_voc texts).
Proof.
  rewrite fit_index_word, fit_word_index, swap_zip.
  apply build_fresh. rewrite app_nil_l. unfold Dict.keys.
  rewrite fst_zip by (rewrite length_seq; lia). apply NoDup_seq.
Qed.

Lemma get_zip {K V} `{EqDecision K} (ks : list K) (vs : list V) k v :
  NoDup ks -> length ks = length vs ->
  Dict.get k (zip ks vs) = Some v <-> exists j, ks !! j = Some k /\ vs !! j = Some v.
Proof.
  intros Hnd Hlen. split.
  - intros Hg%get_Some_elem. apply list_elem_of_lookup in Hg as [j Hj].
    apply lookup_zip_with_Some in Hj as (k' & v' & [= <- <-] & Hk & Hv). by exists j.
  - intros (j & Hk & Hv). apply elem_get.
    + unfold Dict.keys. rewrite fst_zip by lia. done.
    + apply list_elem_of_lookup. exists j. apply lookup_zip_with_Some. by exists k, v.
Qed.

(** The two mappings of a fitted tokenizer are each other's inverse. *)
Lemma fit_inverse texts w i :
  Dict.get w (Keras.word_index (Keras.fit_on_texts texts)) = Some i
  <-> Dict.get i (Keras.index_word (Keras.fit_on_texts texts)) = Some w.
Proof.
  rewrite fit_word_index, fit_index_word_zip.
  rewrite !get_zip; try apply sorted_voc_NoDup; try apply NoDup_seq;
    rewrite ?length_seq; try done.
  split; intros (j & ? & ?); by exists j.
Qed.

Lemma omap_cons_Some {A B} (f : A -> option B) x y (l : list A) :
  f x = Some y -> omap f (x :: l) = y :: omap f l.
Proof. intros Hx. cbn. by rewrite Hx. Qed.

Lemma decode_encode (tokenizer : Keras.Tokenizer) (ws : list string) :
  (forall w i, Dict.get w (Keras.word_index tokenizer) = Some i ->
               Dict.get i (Keras.index_word tokenizer) = Some w) ->
  (forall w, w ∈ ws -> is_Some (Dict.get w (Keras.word_index tokenizer))) ->
  omap (fun i => Dict.get i (Keras.index_word tokenizer))
       (omap (fun w => Dict.get w (Keras.word_index tokenizer)) ws)
  = ws.
Proof.
  intros Hinv Hall. induction ws as [|w ws IH]; [done|].
  destruct (Hall w ltac:(left)) as [i Hi].
  rewrite (omap_cons_Some _ w i) by done.
  rewrite (omap_cons_Some _ i w) by by apply Hinv.
  rewrite IH; [done|]. intros w' Hw'. apply Hall. by right.
Qed.

(** X6. A fitted tokenizer numbers its words from 1 without gap or
    repetition, and its two mappings are inverse to each other: a word has
    index [i] exactly when [i] has that word. The padding index 0 and the
    vocabulary size itself are no word's index. *)
Theorem fit_on_texts_bijection (texts : list string) :
  (forall w i,
     Dict.get w (Keras.word_index (Keras.fit_on_texts texts)) = Some i
     <-> Dict.get i (Keras.index_word (Keras.fit_on_texts texts)) = Some w)
  /\ (forall i,
        is_Some (Dict.get i (Keras.index_word (Keras.fit_on_texts texts)))
        <-> 1 <= i <= length (Keras.word_index (Keras.fit_on_texts texts)))
  /\ length (Keras.index_word (Keras.fit_on_texts texts))
     = length (Keras.word_index (Keras.fit_on_texts texts)).
Proof.
  split; [apply fit_inverse|split].
  - intros i. rewrite fit_vocab_size, fit_index_word_zip. split.
    + intros [w Hw]. apply get_Some_elem, elem_of_zip_l, elem_of_seq in Hw. lia.
    + intros Hi. destruct (lookup_lt_is_Some_2 (sorted_voc texts) (i - 1) ltac:(lia)) as [w Hw].
      exists w. apply get_zip; [apply NoDup_seq|by rewrite length_seq|].
      exists (i - 1). split; [|done]. rewrite lookup_seq_lt by lia. f_equal. lia.
  - rewrite fit_index_word_zip, fit_word_index, !length_zip, length_seq. lia.
Qed.

(** X7. In the train path encoding is lossless: for every framed caption
    of the cleaned corpus, looking the indices of its encoding up in the
    tokenizer's index-to-word mapping gives back the tokens of the caption. *)
Theorem encode_decode_round_trip (descriptions : Dict.t string (list string)) line :
  line ∈ DataLoader.descriptions_to_lines (DataLoader.clean_descriptions descriptions) ->
  omap (fun i =>
          Dict.get i (Keras.index_word
                        (Keras.fit_on_texts
                           (DataLoader.descriptions_to_lines
                              (DataLoader.clean_descriptions descriptions)))))
       (Keras.texts_to_sequences
          (Keras.fit_on_texts
             (DataLoader.descriptions_to_lines (DataLoader.clean_descriptions descriptions)))
          line)
  = Py.split line.
Proof.
  intros Hline. unfold Keras.texts_to_sequences.
  rewrite decode_encode.
  - apply clean_text_words. by eapply cleaned_lines_clean.
  - intros w i. apply fit_inverse.
  - intros w. by apply fit_covers.
Qed.

(** The theorem at a corpus of two captions. *)
Lemma encode_decode_round_trip_witness :
  omap (fun i =>
          Dict.get i (Keras.index_word
                        (Keras.fit_on_texts
                           (DataLoader.descriptions_to_lines
                              (DataLoader.clean_descriptions
                                 [("a.jpg", ["A dog, running!"; "The dog"])])))))
       (Keras.texts_to_sequences
          (Keras.fit_on_texts
             (DataLoader.descriptions_to_lines
                (DataLoader.clean_descriptions [("a.jpg", ["A dog, running!"; "The dog"])])))
          "startseq a dog running endseq")
  = Py.split "startseq a dog running endseq".
Proof.
  apply (encode_decode_round_trip [("a.jpg", ["A dog, running!"; "The dog"])]).
  vm_compute. left.
Defined.

(** X8. On a cleaned corpus the tokenizer and [to_vocabulary] agree: the
    words with an index are exactly the words of the vocabulary, so that the
    vocabulary size of the model is the size of that vocabulary plus one. *)
Theorem tokenizer_matches_vocabulary (descriptions : Dict.t string (list string)) :
  (forall w,
     w ∈ DataLoader.to_vocabulary (DataLoader.clean_descriptions descriptions)
     <-> is_Some (Dict.get w (Keras.word_index
                                (Keras.fit_on_texts
                                   (DataLoader.descriptions_to_lines
                                      (DataLoader.clean_descriptions descriptions))))))
  /\ length (Keras.word_index
               (Keras.fit_on_texts
                  (DataLoader.descriptions_to_lines
                     (DataLoader.clean_descriptions descriptions)))) + 1
     = size (DataLoader.to_vocabulary (DataLoader.clean_descriptions descriptions)) + 1.
Proof.
  set (c := DataLoader.clean_descriptions descriptions).
  set (ls := DataLoader.descriptions_to_lines c).
  assert (forall w, w ∈ DataLoader.to_vocabulary c <-> w ∈ sorted_voc ls) as Hvoc.
  { intros w. unfold DataLoader.to_vocabulary. fold ls.
    rewrite vocabulary_lines, sorted_voc_elem. split.
    - intros [?%not_elem_of_empty|(line & Hline & Hw)]; [done|].
      exists line. split; [done|]. rewrite clean_text_words; [done|].
      by apply (cleaned_lines_clean descriptions).
    - intros (line & Hline & Hw). right. exists line. split; [done|].
      rewrite clean_text_words in Hw; [done|].
      by apply (cleaned_lines_clean descriptions). }
  split.
  - intros w. rewrite Hvoc, fit_word_index.
    destruct (Dict.get w _) as [i|] eqn:Hg.
    + split; [by eauto|]. intros _. by apply get_Some_elem, elem_of_zip_l in Hg.
    + split; [|by intros [? ?]]. intros Hw. apply get_None_keys in Hg.
      exfalso. apply Hg. unfold Dict.keys. by rewrite fst_zip by (rewrite length_seq; lia).
  - f_equal. rewrite fit_vocab_size.
    assert (DataLoader.to_vocabulary c = list_to_set (sorted_voc ls)) as ->.
    { apply set_eq. intros w. rewrite Hvoc. by rewrite elem_of_list_to_set. }
    symmetry. apply size_list_to_set, sorted_voc_NoDup.
Qed.

End tokenizer_more.

(** ** The generator: batches *)

Section batch_facts.
Context {F : Type}.

Lemma foldlM_invariant {A B} (P : A -> Prop) (f : A -> B -> option A) l :
  (forall a x a', f a x = Some a' -> P a -> P a') ->
  forall a a', foldlM f a l = Some a' -> P a -> P a'.
Proof.
  intros Hstep. induction l as [|x l IH]; intros a a'; cbn.
  - by intros [= <-].
  - destruct (f a x) as [a1|] eqn:Hx; [|done]. cbn. intros Hl Ha.
    eapply IH; [done|]. by eapply Hstep.
Qed.

Lemma foldlM_each {A B} (f : A -> B -> option A) l : forall a a',
  foldlM f a l = Some a' -> forall x, x ∈ l -> exists a0 a1, f a0 x = Some a1.
Proof.
  induction l as [|x l IH]; intros a a'; cbn.
  - by intros _ x ?%elem_of_nil.
  - destruct (f a x) as [a1|] eqn:Hx; [|done]. cbn.
    intros Hl x' [->|Hin]%elem_of_cons; [by eauto|]. by eapply IH.
Qed.

Lemma pad_sequences_length maxlen s row :
  Keras.pad_sequences maxlen s = Some row -> length row = maxlen.
Proof.
  unfold Keras.pad_sequences. destruct s as [|x s].
  - intros [= <-]. apply length_replicate.
  - set (trunc := if maxlen =? 0 then _ else _).
    destruct (length trunc <=? maxlen) eqn:Hle; [|done]. intros [= <-].
    apply Nat.leb_le in Hle. rewrite length_app, length_replicate. lia.
Qed.

Lemma sum_one_hot n t : t < n -> sum_list (<[t := 1]> (replicate n 0)) = 1.
Proof.
  revert t. induction n as [|n IH]; intros t Ht; [lia|].
  destruct t as [|t].
  - change (1 + sum_list (replicate n 0) = 1). rewrite sum_list_replicate. lia.
  - change (0 + sum_list (<[t := 1]> (replicate n 0)) = 1). rewrite IH by lia. done.
Qed.

Lemma to_categorical_row t num_classes row :
  Keras.to_categorical t num_classes = Some row ->
  sum_list row = 1 /\ (0 < num_classes -> length row = num_classes).
Proof.
  unfold Keras.to_categorical.
  destruct (t <? _) eqn:Hlt; [|done]. intros [= <-]. apply Nat.ltb_lt in Hlt. split.
  - by apply sum_one_hot.
  - intros Hpos. rewrite length_insert, length_replicate.
    by destruct (Nat.eqb_spec num_classes 0); [lia|].
Qed.

Lemma prefix_step_rectangular max_length vocab_size (feat : F) sq b i b' :
  Main.prefix_step max_length vocab_size feat sq b i = Some b' ->
  rectangular max_length vocab_size b -> rectangular max_length vocab_size b'.
Proof.
  unfold Main.prefix_step.
  destruct (sq !! i) as [t|]; [|done]. cbn.
  destruct (Keras.pad_sequences _ _) as [row|] eqn:Hrow; [|done]. cbn.
  destruct (Keras.to_categorical _ _) as [hot|] eqn:Hhot; [|done]. cbn.
  intros [= <-] (H1 & H2 & H3 & H4). unfold rectangular. cbn.
  rewrite !length_app, !Forall_app, !Forall_singleton. cbn.
  apply pad_sequences_length in Hrow. apply to_categorical_row in Hhot.
  repeat split; try done; lia.
Qed.

(** Whatever it is given, the generator collects rectangular batches. *)
Lemma make_batch_rectangular descriptions_for_gen (features : Dict.t string F)
    tokenizer max_length vocab_size ids b :
  Main.make_batch descriptions_for_gen features tokenizer max_length vocab_size ids = Some b ->
  rectangular max_length vocab_size b.
Proof.
  unfold Main.make_batch. intros Hb.
  eapply (foldlM_invariant (rectangular max_length vocab_size)); [|exact Hb|].
  - intros b0 img b1. unfold Main.image_step.
    destruct (Dict.get img descriptions_for_gen) as [desc_lines|]; [|done]. cbn.
    destruct (Dict.get img features) as [feat|]; [|done]. cbn.
    apply foldlM_invariant. intros b2 line b3. unfold Main.caption_step.
    apply foldlM_invariant. intros b4 i b5.
    apply prefix_step_rectangular.
  - unfold rectangular. cbn. by repeat split.
Qed.

(** X9. Whatever descriptions, features, tokenizer and sizes it is given,
    a batch the generator collects is rectangular: the three lists have the
    same length, every padded sequence has exactly [max_length] cells, also a
    prefix longer than that (it is cut at the front), and every target is a
    vector with a single 1, of [vocab_size] cells when that is positive. *)
Theorem batches_are_rectangular descriptions_for_gen (features : Dict.t string F)
    tokenizer max_length vocab_size batch_image_ids b :
  Main.make_batch descriptions_for_gen features tokenizer max_length vocab_size
    batch_image_ids = Some b ->
  length (Main.X1 b) = length (Main.X2 b)
  /\ length (Main.X2 b) = length (Main.y b)
  /\ Forall (fun row => length row = max_length) (Main.X2 b)
  /\ Forall (fun row => sum_list row = 1
                        /\ (0 < vocab_size -> length row = vocab_size)) (Main.y b).
Proof. apply make_batch_rectangular. Qed.

Lemma make_batch_keys descriptions_for_gen (features : Dict.t string F)
    tokenizer max_length vocab_size ids b img :
  Main.make_batch descriptions_for_gen features tokenizer max_length vocab_size ids = Some b ->
  img ∈ ids ->
  is_Some (Dict.get img descriptions_for_gen) /\ is_Some (Dict.get img features).
Proof.
  unfold Main.make_batch. intros Hb Himg.
  destruct (foldlM_each _ _ _ _ Hb img Himg) as (b0 & b1 & Hstep).
  unfold Main.image_step in Hstep.
  destruct (Dict.get img descriptions_for_gen); [|done]. cbn in Hstep.
  destruct (Dict.get img features); [|done]. split; by eauto.
Qed.

(** X10. The generator collects a batch only when every image of the
    batch has an entry in the descriptions and in the features: an
    identifier missing from either raises, and no batch is produced. *)
Theorem make_batch_needs_keys descriptions_for_gen (features : Dict.t string F)
    tokenizer max_length vocab_size batch_image_ids :
  (forall b img,
     Main.make_batch descriptions_for_gen features tokenizer max_length vocab_size
       batch_image_ids = Some b ->
     img ∈ batch_image_ids ->
     is_Some (Dict.get img descriptions_for_gen) /\ is_Some (Dict.get img features))
  /\ (forall img,
        img ∈ batch_image_ids ->
        Dict.get img descriptions_for_gen = None \/ Dict.get img features = None ->
        Main.make_batch descriptions_for_gen features tokenizer max_length vocab_size
          batch_image_ids = None).
Proof.
  split.
  - intros b img. apply make_batch_keys.
  - intros img Himg Hnone.
    destruct (Main.make_batch _ _ _ _ _ _) as [b|] eqn:Hb; [|done].
    destruct (make_batch_keys _ _ _ _ _ _ _ _ Hb Himg) as [[? H1] [? H2]].
    destruct Hnone as [H|H]; congruence.
Qed.

End batch_facts.

(** The theorem at rows of two cells, shorter than the caption. *)
Lemma batches_are_rectangular_witness :
  length (Main.X1 batch_cut) = length (Main.X2 batch_cut)
  /\ length (Main.X2 batch_cut) = length (Main.y batch_cut)
  /\ Forall (fun row => length row = 2) (Main.X2 batch_cut)
  /\ Forall (fun row => sum_list row = 1 /\ (0 < 6 -> length row = 6)) (Main.y batch_cut).
Proof.
  apply (batches_are_rectangular [("img1.jpg", [line1])] cache2 tokenizer1 2 6 ["img1.jpg"]).
  vm_compute. reflexivity.
Defined.

(** The theorem at a batch with an image that has no cached feature. *)
Lemma make_batch_needs_keys_witness :
  Main.make_batch [("img1.jpg", [line1]); ("img3.jpg", [line1])] cache2 tokenizer1 5 6
    ["img1.jpg"; "img3.jpg"] = None.
Proof.
  apply (proj2 (make_batch_needs_keys [("img1.jpg", [line1]); ("img3.jpg", [line1])]
                  cache2 tokenizer1 5 6 ["img1.jpg"; "img3.jpg"]) "img3.jpg").
  - right. left.
  - right. reflexivity.
Defined.

(** ** The generator: rounds *)

Section round_facts.

Lemma ceil_bounds n bs :
  0 < bs -> n <= (n + bs - 1) / bs * bs /\ (n + bs - 1) / bs * bs < n + bs.
Proof.
  intros Hbs. pose proof (Nat.div_mod_eq (n + bs - 1) bs) as Hdm.
  pose proof (Nat.mod_upper_bound (n + bs - 1) bs ltac:(lia)) as Hm. nia.
Qed.

Lemma slices_concat bs (ids : list string) m :
  concat ((fun k => slice bs ids (k * bs)) <$> seq 0 m) = take (m * bs) ids.
Proof.
  induction m as [|m IH]; [done|].
  rewrite seq_S, fmap_app, concat_app, IH. cbn.
  rewrite (right_id_L [] (++)). unfold slice.
  rewrite take_take_drop. f_equal. lia.
Qed.

(** X11. A round of the generator cuts the image identifiers into
    consecutive batches: for a positive batch size there is one batch start
    per [batch_size] identifiers, the last batch taking what is left; put end
    to end the batches are the identifiers, each once and in order; and every
    batch has between one and [batch_size] identifiers. A batch size of 0
    raises. *)
Theorem batches_partition_ids (batch_size : nat) (image_ids : list string) :
  (batch_size = 0 -> Main.batch_starts batch_size (length image_ids) = None)
  /\ (0 < batch_size ->
      exists starts,
        Main.batch_starts batch_size (length image_ids) = Some starts
        /\ length image_ids <= length starts * batch_size < length image_ids + batch_size
        /\ concat (slice batch_size image_ids <$> starts) = image_ids
        /\ Forall (fun i => 1 <= length (slice batch_size image_ids i) <= batch_size) starts).
Proof.
  unfold Main.batch_starts. split; [by intros ->|].
  intros Hbs. destruct (Nat.eqb_spec batch_size 0) as [?|_]; [lia|].
  destruct (ceil_bounds (length image_ids) batch_size Hbs) as [Hlo Hhi].
  eexists. split; [done|]. rewrite length_fmap, length_seq. split; [done|split].
  - rewrite <- list_fmap_compose.
    rewrite (slices_concat batch_size image_ids). by apply take_ge.
  - apply Forall_fmap, Forall_forall. intros k Hk%elem_of_seq. cbn. unfold slice.
    rewrite length_take, length_drop. nia.
Qed.

(** The theorem at five identifiers in batches of two. *)
Lemma batches_partition_ids_witness :
  exists starts,
    Main.batch_starts 2 (length ["a"; "b"; "c"; "d"; "e"]) = Some starts
    /\ length ["a"; "b"; "c"; "d"; "e"] <= length starts * 2
       < length ["a"; "b"; "c"; "d"; "e"] + 2
    /\ concat (slice 2 ["a"; "b"; "c"; "d"; "e"] <$> starts) = ["a"; "b"; "c"; "d"; "e"]
    /\ Forall (fun i => 1 <= length (slice 2 ["a"; "b"; "c"; "d"; "e"] i) <= 2) starts.
Proof. apply (proj2 (batches_partition_ids 2 ["a"; "b"; "c"; "d"; "e"])). lia. Defined.

End round_facts.

Section train_round.
Context {F : Type}.
Variable all_features : Dict.t string F.
Variable captions_filepath : string.
Variable fs : DataLoader.FileSystem.

Local Abbreviation loaded := (DataLoader.load_descriptions captions_filepath fs).1.
Local Abbreviation cleaned := (DataLoader.clean_descriptions loaded).
Local Abbreviation lines := (DataLoader.descriptions_to_lines cleaned).
Local Abbreviation fitted := (Keras.fit_on_texts lines).
Local Abbreviation ml0 := (DataLoader.max_len cleaned).
Local Abbreviation vs0 := (length (Keras.word_index fitted) + 1).
Local Abbreviation filtered0 := (frame_entry <$> cached all_features cleaned).

(** A non-empty batch of images handed to the generator is collected and
    yielded. *)
Lemma make_batch_yielded batch_ids :
  batch_ids <> [] ->
  (forall img, img ∈ batch_ids -> img ∈ Dict.keys filtered0) ->
  exists b, Main.make_batch filtered0 all_features fitted ml0 vs0 batch_ids = Some b
            /\ Main.yielded b = true.
Proof.
  intros Hne Hids.
  destruct (image_loop_ok all_features captions_filepath fs batch_ids
              {| Main.X1 := []; Main.X2 := []; Main.y := [] |} Hids) as (b & Hb & Hlen).
  exists b. split; [done|].
  destruct (make_batch_rectangular _ _ _ _ _ _ _ Hb) as (H1 & H2 & _).
  cbn in Hlen. unfold Main.yielded.
  destruct batch_ids; [done|].
  destruct (Main.X1 b), (Main.X2 b), (Main.y b); cbn in *; (done || lia).
Qed.

Lemma round_loop starts ids batch_size : forall batches,
  0 < batch_size ->
  (forall img, img ∈ ids -> img ∈ Dict.keys filtered0) ->
  Forall (fun i => i < length ids) starts ->
  exists out,
    foldlM (fun batches i =>
              match Main.make_batch filtered0 all_features fitted ml0 vs0
                      (take batch_size (drop i ids)) with
              | None => None
              | Some b => Some (if Main.yielded b then batches ++ [b] else batches)
              end) batches starts
    = Some (batches ++ out)
    /\ length out = length starts
    /\ Forall (fun b => Main.yielded b = true) out.
Proof.
  induction starts as [|i starts IH]; intros batches Hbs Hids Hst.
  - exists []. by rewrite (right_id_L [] (++)).
  - apply Forall_cons in Hst as [Hi Hst].
    destruct (make_batch_yielded (take batch_size (drop i ids))) as (b & Hb & Hy).
    { intros E. apply (f_equal length) in E.
      rewrite length_take, length_drop in E. cbn in E. lia. }
    { intros img Himg. apply Hids. by apply (subseteq_drop i), (subseteq_take batch_size). }
    destruct (IH (batches ++ [b]) Hbs Hids Hst) as (out & Hout & Hlen & Hall).
    exists (b :: out). cbn [foldlM]. rewrite Hb, Hy. cbn [mbind option_bind].
    rewrite Hout, <- (assoc_L (++)). split; [done|split]; [by cbn; f_equal|].
    by apply Forall_cons.
Qed.

(** X12. In the train path, with a positive batch size, a round of the
    generator raises nowhere and yields every batch, none of them empty: as
    many batches as it takes to go through the images handed over. An epoch
    asks for [len(image_ids) // batch_size] of them, which is never more than
    a round yields, and is 0 when there are fewer images than the batch
    size. *)
Theorem train_round_yields tokenizer max_length vocab_size filtered image_ids batch_size :
  Main.train_model all_features captions_filepath fs
  = Main.Fits tokenizer max_length vocab_size filtered image_ids ->
  0 < batch_size ->
  exists batches steps,
    Main.data_generator_round filtered all_features tokenizer max_length vocab_size
      batch_size image_ids = Some batches
    /\ length image_ids <= length batches * batch_size < length image_ids + batch_size
    /\ Forall (fun b => Main.yielded b = true) batches
    /\ Main.steps_per_epoch batch_size image_ids = Some steps
    /\ steps <= length batches
    /\ (length image_ids < batch_size -> steps = 0).
Proof.
  intros (-> & -> & -> & -> & -> & Hne)%train_model_fits Hbs.
  unfold Main.data_generator_round, Main.steps_per_epoch, Main.batch_starts.
  destruct (Nat.eqb_spec batch_size 0) as [?|_]; [lia|].
  set (n := length (Dict.keys filtered0)).
  destruct (ceil_bounds n batch_size Hbs) as [Hlo Hhi].
  destruct (round_loop ((fun k => k * batch_size) <$> seq 0 ((n + batch_size - 1) / batch_size))
              (Dict.keys filtered0) batch_size [] Hbs ltac:(done)) as (out & Hout & Hlen & Hall).
  { apply Forall_fmap, Forall_forall. intros k Hk%elem_of_seq. cbn. fold n. nia. }
  rewrite length_fmap, length_seq in Hlen.
  exists out, (n / batch_size). rewrite Hout, Hlen. cbn [app].
  split; [done|]. split; [done|]. split; [done|]. split; [done|]. split.
  - pose proof (Nat.div_mod_eq n batch_size).
    pose proof (Nat.mod_upper_bound n batch_size ltac:(lia)). nia.
  - intros Hlt. by apply Nat.div_small.
Qed.

End train_round.

(** The theorem at the corpus of one image, in batches of 32: one batch per
    round, and no step per epoch. *)
Lemma train_round_yields_witness :
  exists batches steps,
    Main.data_generator_round [("img1.jpg", [line1])] cache2 tokenizer1 5 6 32 ["img1.jpg"]
    = Some batches
    /\ length ["img1.jpg"] <= length batches * 32 < length ["img1.jpg"] + 32
    /\ Forall (fun b => Main.yielded b = true) batches
    /\ Main.steps_per_epoch 32 ["img1.jpg"] = Some steps
    /\ steps <= length batches
    /\ (length ["img1.jpg"] < 32 -> steps = 0).
Proof.
  apply (train_round_yields cache2 "captions.txt" captions1 tokenizer1 5 6
           [("img1.jpg", [line1])] ["img1.jpg"] 32).
  - vm_compute. reflexivity.
  - lia.
Defined.

(** ** The generator: what a round yields *)

Section batch_algebra.
Context {F : Type}.

Lemma extend_empty_l (b : @Main.Batch F) : extend empty_batch b = b.
Proof. by destruct b. Qed.

Lemma extend_empty_r (b : @Main.Batch F) : extend b empty_batch = b.
Proof. destruct b. unfold extend. cbn. by rewrite !(right_id_L [] (++)). Qed.

Lemma join_batches_app (bs1 bs2 : list (@Main.Batch F)) :
  join_batches (bs1 ++ bs2) = extend (join_batches bs1) (join_batches bs2).
Proof.
  induction bs1 as [|b bs1 IH]; cbn.
  - by rewrite extend_empty_l.
  - fold (join_batches (bs1 ++ bs2)). fold (join_batches bs1).
    by rewrite IH, extend_assoc.
Qed.

(** The triples of a batch of the list are a segment of the whole. *)
Lemma join_batches_elem (x : @Main.Batch F) bs :
  x ∈ bs -> exists before after, join_batches bs = extend (extend before x) after.
Proof.
  intros (bs1 & bs2 & ->)%list_elem_of_split.
  exists (join_batches bs1), (join_batches bs2).
  rewrite join_batches_app. cbn. fold (join_batches bs2). by rewrite extend_assoc.
Qed.

(** A loop whose body appends the triples [g a] appends them all, in the
    order of the loop. *)
Lemma foldlM_extend {A} (f : @Main.Batch F -> A -> option (@Main.Batch F))
    (g : A -> @Main.Batch F) l :
  (forall b a, a ∈ l -> f b a = Some (extend b (g a))) ->
  forall b, foldlM f b l = Some (extend b (join_batches (g <$> l))).
Proof.
  induction l as [|a l IH]; intros Hf b; cbn [foldlM].
  - cbn. by rewrite extend_empty_r.
  - rewrite (Hf b a) by left. cbn [mbind option_bind].
    rewrite IH by (intros b' a' Ha'; apply Hf; by right).
    rewrite extend_assoc. done.
Qed.

End batch_algebra.

Section train_triples.
Context {F : Type}.
Variable all_features : Dict.t string F.
Variable captions_filepath : string.
Variable fs : DataLoader.FileSystem.

Local Abbreviation loaded := (DataLoader.load_descriptions captions_filepath fs).1.
Local Abbreviation cleaned := (DataLoader.clean_descriptions loaded).
Local Abbreviation lines := (DataLoader.descriptions_to_lines cleaned).
Local Abbreviation fitted := (Keras.fit_on_texts lines).
Local Abbreviation ml0 := (DataLoader.max_len cleaned).
Local Abbreviation vs0 := (length (Keras.word_index fitted) + 1).
Local Abbreviation filtered0 := (frame_entry <$> cached all_features cleaned).

(** The loop over the captions of an image appends the triples of every
    caption, and nothing else. *)
Lemma caption_loop_exact (feat : F) ls b :
  (forall line, line ∈ ls -> line ∈ lines) ->
  foldlM (Main.caption_step fitted ml0 vs0 feat) b ls
  = Some (extend b (join_batches
                      ((fun line => examples ml0 vs0 feat
                                      (Keras.texts_to_sequences fitted line)) <$> ls))).
Proof.
  intros Hls. apply foldlM_extend. intros b' line Hline.
  destruct (corpus_line_encoding captions_filepath fs line (Hls line Hline))
    as (_ & Hfit & Hvoc).
  by apply caption_step_ok.
Qed.

Lemma image_step_exact b img :
  img ∈ Dict.keys filtered0 ->
  Main.image_step filtered0 all_features fitted ml0 vs0 b img
  = Some (extend b (image_examples filtered0 all_features fitted ml0 vs0 img)).
Proof.
  intros ([k desc_lines] & Hk & Hin)%list_elem_of_fmap. cbn in Hk. subst k.
  pose proof Hin as (l & Hl & Hmem & ->)%elem_of_framed.
  apply mem_keys in Hmem.
  destruct (Dict.get img all_features) as [feat|] eqn:Hfeat;
    [|by apply get_None_keys in Hfeat].
  assert (Dict.get img filtered0 = Some (frame <$> l)) as Hget.
  { apply elem_get; [|done].
    rewrite frame_entry_keys. apply cached_keys_NoDup, clean_descriptions_NoDup. }
  unfold Main.image_step, image_examples. rewrite Hget, Hfeat. cbn [mbind option_bind].
  apply caption_loop_exact. intros line Hline. by eapply framed_line_in_corpus.
Qed.

(** A batch of images handed to the generator is collected as the triples
    of its images. *)
Lemma make_batch_exact batch_ids :
  (forall img, img ∈ batch_ids -> img ∈ Dict.keys filtered0) ->
  Main.make_batch filtered0 all_features fitted ml0 vs0 batch_ids
  = Some (batch_examples filtered0 all_features fitted ml0 vs0 batch_ids).
Proof.
  intros Hids. unfold Main.make_batch, batch_examples.
  rewrite (foldlM_extend _ (image_examples filtered0 all_features fitted ml0 vs0)).
  - change {| Main.X1 := []; Main.X2 := []; Main.y := [] |} with (@empty_batch F).
    by rewrite extend_empty_l.
  - intros b img Himg. by apply image_step_exact, Hids.
Qed.

(** The loop of a round yields the batch of every start. *)
Lemma round_loop_exact starts ids batch_size : forall batches,
  0 < batch_size ->
  (forall img, img ∈ ids -> img ∈ Dict.keys filtered0) ->
  Forall (fun i => i < length ids) starts ->
  foldlM (fun batches i =>
            match Main.make_batch filtered0 all_features fitted ml0 vs0
                    (take batch_size (drop i ids)) with
            | None => None
            | Some b => Some (if Main.yielded b then batches ++ [b] else batches)
            end) batches starts
  = Some (batches
          ++ ((fun i => batch_examples filtered0 all_features fitted ml0 vs0
                          (slice batch_size ids i)) <$> starts)).
Proof.
  induction starts as [|i starts IH]; intros batches Hbs Hids Hst.
  - cbn. by rewrite (right_id_L [] (++)).
  - apply Forall_cons in Hst as [Hi Hst].
    assert (forall img, img ∈ take batch_size (drop i ids) -> img ∈ Dict.keys filtered0)
      as Hsl.
    { intros img Himg. apply Hids.
      by apply (subseteq_drop i), (subseteq_take batch_size). }
    destruct (make_batch_yielded all_features captions_filepath fs
                (take batch_size (drop i ids))) as (b & Hb & Hy); [|done|].
    { intros E. apply (f_equal length) in E.
      rewrite length_take, length_drop in E. cbn in E. lia. }
    cbn [foldlM]. rewrite Hb, Hy. cbn [mbind option_bind].
    rewrite (IH (batches ++ [b]) Hbs Hids Hst), <- (assoc_L (++)).
    rewrite (make_batch_exact _ Hsl) in Hb. injection Hb as <-. done.
Qed.

(** C1. In the train path, for every image handed to the generator and
    every framed caption [line] of that image: the image has a cached
    embedding [feat]; the caption is encoded to an index sequence [sq] with
    one index per token of the line; and the generator appends exactly
    [length sq - 1] triples to the three lists of the batch, the one for
    prefix length [i], for [i] from 1 to [length sq - 1], being [feat], the
    prefix [take i sq] behind [max_length - i] zeros (a row of [max_length]
    cells), and the vector over the vocabulary with a single 1, at the index
    [sq !!! i] (below [vocab_size]) of the token that follows the prefix. A
    caption framed to 5 tokens so yields 4 triples. These triples are
    emitted: for a positive batch size, a round of the generator yields one
    batch per batch start, the batch of a start being what [make_batch]
    collects for the identifiers of that start, which is the triples of
    their captions and nothing else, image after image and caption after
    caption; and the triples of [line] are a segment of one of the batches
    yielded. *)
Theorem generator_emits_prefix_triples tokenizer max_length vocab_size filtered image_ids
    img desc_lines line (b : @Main.Batch F) :
  Main.train_model all_features captions_filepath fs
  = Main.Fits tokenizer max_length vocab_size filtered image_ids ->
  (img, desc_lines) ∈ filtered ->
  line ∈ desc_lines ->
  exists feat sq,
    Dict.get img all_features = Some feat
    /\ Dict.get img filtered = Some desc_lines
    /\ Main.image_step filtered all_features tokenizer max_length vocab_size b img
       = foldlM (Main.caption_step tokenizer max_length vocab_size feat) b desc_lines
    /\ sq = Keras.texts_to_sequences tokenizer line
    /\ length sq = length (Py.split line)
    /\ Main.caption_step tokenizer max_length vocab_size feat b line
       = Some (extend b (examples max_length vocab_size feat sq))
    /\ length (Main.X1 (examples max_length vocab_size feat sq)) = length sq - 1
    /\ length (Main.X2 (examples max_length vocab_size feat sq)) = length sq - 1
    /\ length (Main.y (examples max_length vocab_size feat sq)) = length sq - 1
    /\ (forall i, 1 <= i < length sq ->
          Main.X1 (examples max_length vocab_size feat sq) !! (i - 1) = Some feat
          /\ Main.X2 (examples max_length vocab_size feat sq) !! (i - 1)
             = Some (replicate (max_length - i) 0 ++ take i sq)
          /\ length (replicate (max_length - i) 0 ++ take i sq) = max_length
          /\ Main.y (examples max_length vocab_size feat sq) !! (i - 1)
             = Some (<[sq !!! i := 1]> (replicate vocab_size 0))
          /\ sq !!! i < vocab_size)
    /\ (length (Py.split line) = 5 ->
        length (Main.X1 (examples max_length vocab_size feat sq)) = 4)
    /\ (forall batch_size, 0 < batch_size ->
          exists starts batches,
            Main.batch_starts batch_size (length image_ids) = Some starts
            /\ Main.data_generator_round filtered all_features tokenizer max_length
                 vocab_size batch_size image_ids = Some batches
            /\ batches
               = (fun i => batch_examples filtered all_features tokenizer max_length
                             vocab_size (slice batch_size image_ids i)) <$> starts
            /\ (forall i, i ∈ starts ->
                  Main.make_batch filtered all_features tokenizer max_length vocab_size
                    (slice batch_size image_ids i)
                  = Some (batch_examples filtered all_features tokenizer max_length
                            vocab_size (slice batch_size image_ids i)))
            /\ exists yielded_batch before after,
                 yielded_batch ∈ batches
                 /\ yielded_batch
                    = extend (extend before (examples max_length vocab_size feat sq))
                             after).
Proof.
  intros (-> & -> & -> & -> & -> & Hne)%train_model_fits Himg Hline.
  pose proof (framed_line_in_corpus _ _ _ _ _ _ Himg Hline) as Hcorpus.
  destruct (corpus_line_encoding _ _ _ Hcorpus) as (Hlen & Hfit & Hvoc).
  pose proof Himg as (l & Hl & Hmem & ->)%elem_of_framed.
  apply mem_keys in Hmem.
  destruct (Dict.get img all_features) as [feat|] eqn:Hfeat;
    [|by apply get_None_keys in Hfeat].
  assert (Dict.get img filtered0 = Some (frame <$> l)) as Hget.
  { apply elem_get; [|done].
    rewrite frame_entry_keys. apply cached_keys_NoDup, clean_descriptions_NoDup. }
  exists feat, (Keras.texts_to_sequences fitted line).
  destruct (examples_length ml0 vs0 feat (Keras.texts_to_sequences fitted line))
    as (H1 & H2 & H3).
  do 2 (split; [done|]). split.
  { unfold Main.image_step. rewrite Hget. cbn. by rewrite Hfeat. }
  do 2 (split; [done|]). split; [by apply caption_step_ok|].
  do 3 (split; [done|]). split; [|split].
  - intros i Hi.
    destruct (examples_lookup ml0 vs0 feat (Keras.texts_to_sequences fitted line) i Hi)
      as (E1 & E2 & E3).
    do 2 (split; [done|]). split; [|split; [done|]].
    + rewrite length_app, length_replicate, length_take_le by lia. lia.
    + rewrite Forall_forall in Hvoc. apply Hvoc.
      eapply list_elem_of_lookup_2, list_lookup_lookup_total_lt. lia.
  - intros H5. rewrite H1, Hlen, H5. done.
  - intros batch_size Hbs.
    set (ids := Dict.keys filtered0). set (n := length ids).
    set (starts := (fun k => k * batch_size) <$> seq 0 ((n + batch_size - 1) / batch_size)).
    destruct (ceil_bounds n batch_size Hbs) as [Hlo Hhi].
    assert (Main.batch_starts batch_size n = Some starts) as Hstarts.
    { unfold Main.batch_starts.
      by destruct (Nat.eqb_spec batch_size 0) as [?|_]; [lia|]. }
    assert (Forall (fun i => i < n) starts) as Hlt.
    { apply Forall_fmap, Forall_forall. intros k Hk%elem_of_seq. cbn. nia. }
    exists starts, ((fun i => batch_examples filtered0 all_features fitted ml0 vs0
                                (slice batch_size ids i)) <$> starts).
    split; [done|]. split.
    { unfold Main.data_generator_round. fold ids. fold n. rewrite Hstarts.
      by rewrite (round_loop_exact starts ids batch_size [] Hbs) by done. }
    split; [done|]. split.
    { intros i Hi. apply make_batch_exact. intros img' Himg'. unfold slice in Himg'.
      by apply (subseteq_drop i), (subseteq_take batch_size). }
    assert (img ∈ ids) as Hid.
    { apply list_elem_of_fmap. by exists (img, frame <$> l). }
    assert (concat (slice batch_size ids <$> starts) = ids) as Hcat.
    { subst starts. rewrite <- list_fmap_compose.
      rewrite (slices_concat batch_size ids). apply take_ge. fold n. lia. }
    rewrite <- Hcat in Hid.
    apply list_elem_of_In, in_concat in Hid as (sl & Hsl & Hin).
    apply list_elem_of_In, list_elem_of_fmap in Hsl as (i & -> & Hi).
    apply list_elem_of_In in Hin.
    destruct (join_batches_elem
                (image_examples filtered0 all_features fitted ml0 vs0 img)
                (image_examples filtered0 all_features fitted ml0 vs0
                   <$> slice batch_size ids i))
      as (before1 & after1 & Hbatch).
    { apply list_elem_of_fmap. by exists img. }
    destruct (join_batches_elem
                (examples ml0 vs0 feat (Keras.texts_to_sequences fitted line))
                ((fun line => examples ml0 vs0 feat (Keras.texts_to_sequences fitted line))
                   <$> (frame <$> l)))
      as (before2 & after2 & Himage).
    { apply list_elem_of_fmap. by exists line. }
    exists (batch_examples filtered0 all_features fitted ml0 vs0 (slice batch_size ids i)),
      (extend before1 before2), (extend after2 after1).
    split.
    { apply list_elem_of_fmap. by exists i. }
    unfold batch_examples. rewrite Hbatch.
    unfold image_examples at 1. rewrite Hget, Hfeat, Himage.
    by rewrite !extend_assoc.
Qed.

End train_triples.

(** The theorem at the corpus of one image captioned "A cat sits!", with
    two images in the embedding cache: the caption is framed to five tokens
    and gives four triples, which a round yields in its one batch. *)
Lemma generator_emits_prefix_triples_witness :
  exists feat sq,
    Dict.get "img1.jpg" cache2 = Some feat
    /\ Dict.get "img1.jpg" [("img1.jpg", [line1])] = Some [line1]
    /\ Main.image_step [("img1.jpg", [line1])] cache2 tokenizer1 5 6
         {| Main.X1 := []; Main.X2 := []; Main.y := [] |} "img1.jpg"
       = foldlM (Main.caption_step tokenizer1 5 6 feat)
                {| Main.X1 := []; Main.X2 := []; Main.y := [] |} [line1]
    /\ sq = Keras.texts_to_sequences tokenizer1 line1
    /\ length sq = length (Py.split line1)
    /\ Main.caption_step tokenizer1 5 6 feat
         {| Main.X1 := []; Main.X2 := []; Main.y := [] |} line1
       = Some (extend {| Main.X1 := []; Main.X2 := []; Main.y := [] |}
                      (examples 5 6 feat sq))
    /\ length (Main.X1 (examples 5 6 feat sq)) = length sq - 1
    /\ length (Main.X2 (examples 5 6 feat sq)) = length sq - 1
    /\ length (Main.y (examples 5 6 feat sq)) = length sq - 1
    /\ (forall i, 1 <= i < length sq ->
          Main.X1 (examples 5 6 feat sq) !! (i - 1) = Some feat
          /\ Main.X2 (examples 5 6 feat sq) !! (i - 1)
             = Some (replicate (5 - i) 0 ++ take i sq)
          /\ length (replicate (5 - i) 0 ++ take i sq) = 5
          /\ Main.y (examples 5 6 feat sq) !! (i - 1)
             = Some (<[sq !!! i := 1]> (replicate 6 0))
          /\ sq !!! i < 6)
    /\ (length (Py.split line1) = 5 -> length (Main.X1 (examples 5 6 feat sq)) = 4)
    /\ (forall batch_size, 0 < batch_size ->
          exists starts batches,
            Main.batch_starts batch_size (length ["img1.jpg"]) = Some starts
            /\ Main.data_generator_round [("img1.jpg", [line1])] cache2 tokenizer1 5 6
                 batch_size ["img1.jpg"] = Some batches
            /\ batches
               = (fun i => batch_examples [("img1.jpg", [line1])] cache2 tokenizer1 5 6
                             (slice batch_size ["img1.jpg"] i)) <$> starts
            /\ (forall i, i ∈ starts ->
                  Main.make_batch [("img1.jpg", [line1])] cache2 tokenizer1 5 6
                    (slice batch_size ["img1.jpg"] i)
                  = Some (batch_examples [("img1.jpg", [line1])] cache2 tokenizer1 5 6
                            (slice batch_size ["img1.jpg"] i)))
            /\ exists yielded_batch before after,
                 yielded_batch ∈ batches
                 /\ yielded_batch = extend (extend before (examples 5 6 feat sq)) after).
Proof.
  apply (generator_emits_prefix_triples cache2 "captions.txt" captions1
           tokenizer1 5 6 [("img1.jpg", [line1])] ["img1.jpg"] "img1.jpg" [line1] line1).
  - vm_compute. reflexivity.
  - left.
  - left.
Defined.

(** The round of that corpus in batches of 32: one batch, the four triples
    of the caption. *)
Example generator_round_yields_four_triples :
  Main.data_generator_round [("img1.jpg", [line1])] cache2 tokenizer1 5 6 32 ["img1.jpg"]
  = Some [{| Main.X1 := [[7; 1]; [7; 1]; [7; 1]; [7; 1]];
             Main.X2 := [[0; 0; 0; 0; 1]; [0; 0; 0; 1; 2]; [0; 0; 1; 2; 3]; [0; 1; 2; 3; 4]];
             Main.y := [[0; 0; 1; 0; 0; 0]; [0; 0; 0; 1; 0; 0];
                        [0; 0; 0; 0; 1; 0]; [0; 0; 0; 0; 0; 1]] |}].
Proof. vm_compute. reflexivity. Qed.

(** ** The decoder: the text and the caption reported *)

Section decoder_more.
Context {F : Type}.

Lemma decode_loop_spelled (model : @Main.Predictor F) tokenizer photo max_length n :
  forall in_text text trace,
    Main.decode_loop model tokenizer photo max_length n in_text = Some (text, trace) ->
    text = spelled tokenizer in_text trace.
Proof.
  induction n as [|n IH]; intros in_text text trace; cbn [Main.decode_loop].
  - by intros [= <- <-].
  - destruct (Keras.pad_sequences _ _) as [row|]; [|done]. cbn [mbind option_bind].
    set (yhat := model photo row).
    destruct (Dict.get yhat (Keras.index_word tokenizer)) as [word|] eqn:Hw.
    + destruct (decide (word = "endseq")) as [->|Hne].
      * intros [= <- <-]. unfold spelled. cbn. by rewrite Hw.
      * destruct (Main.decode_loop _ _ _ _ n _) as [[t tr]|] eqn:Hrec; [|done].
        cbn. intros [= <- <-]. apply IH in Hrec. unfold spelled in *. cbn. by rewrite Hw.
    + intros [= <- <-]. unfold spelled. cbn. by rewrite Hw.
Qed.

(** X13. The text [generate_caption] returns is spelled by its
    predictions: the start marker followed, for every predicted index that
    has a word, by one blank and that word, in the order of the predictions. *)
Theorem generate_caption_spells_trace (model : @Main.Predictor F) tokenizer photo_features
    max_length text trace :
  Main.generate_caption_run model tokenizer photo_features max_length = Some (text, trace) ->
  text = spelled tokenizer "startseq" trace.
Proof. apply decode_loop_spelled. Qed.

Lemma decode_loop_rows (model model' : @Main.Predictor F) tokenizer photo max_length n :
  (forall row, length row = max_length -> model photo row = model' photo row) ->
  forall in_text,
    Main.decode_loop model tokenizer photo max_length n in_text
    = Main.decode_loop model' tokenizer photo max_length n in_text.
Proof.
  intros Hrows. induction n as [|n IH]; intros in_text; cbn [Main.decode_loop]; [done|].
  destruct (Keras.pad_sequences _ _) as [row|] eqn:Hrow; [|done]. cbn [mbind option_bind].
  rewrite <- (Hrows row) by by eapply pad_sequences_length.
  destruct (Dict.get _ _) as [word|]; [|done].
  destruct (decide _); [done|]. by rewrite IH.
Qed.

(** X14. The decoder shows the model nothing but rows of [max_length]
    cells: two models that predict alike on every such row, for the image
    at hand, give the same text and the same predictions. *)
Theorem generate_caption_fixed_length (model model' : @Main.Predictor F) tokenizer
    photo_features max_length :
  (forall row, length row = max_length ->
               model photo_features row = model' photo_features row) ->
  Main.generate_caption_run model tokenizer photo_features max_length
  = Main.generate_caption_run model' tokenizer photo_features max_length.
Proof. intros Hrows. by apply decode_loop_rows. Qed.

Lemma generate_caption_some (model : @Main.Predictor F) tokenizer photo max_length :
  exists text, Main.generate_caption model tokenizer photo max_length = Some text.
Proof.
  unfold Main.generate_caption, Main.generate_caption_run.
  destruct max_length as [|m] eqn:Hm; [by exists "startseq"|].
  destruct (decode_loop_ends model tokenizer photo (S m) (S m) "startseq" ltac:(lia))
    as (text & trace & -> & _).
  by exists text.
Qed.

Variables model_path tokenizer_path max_length_path image_path : string.

(** With a name the extractor accepts, a base model that loads and a
    network that can be built, the call goes as [predict_caption] without
    them. *)
Lemma predict_caption_named_accepted feature_model_name keras extractor
    (env : @Main.Environment F) :
  FeatureExtractor.new feature_model_name = Some extractor ->
  Main.base_model_loads keras (FeatureExtractor.base_model extractor) = true ->
  (forall vocab_size max_length,
     Main.create_model_builds keras (FeatureExtractor.get_output_dim extractor)
       vocab_size max_length = true) ->
  Main.predict_caption_named feature_model_name keras
    model_path tokenizer_path max_length_path image_path env
  = Main.predict_caption model_path tokenizer_path max_length_path image_path env.
Proof.
  intros Hnew Hloads Hbuild. unfold Main.predict_caption_named, Main.predict_caption.
  rewrite Hnew, Hloads.
  destruct (Main.model_h5 env) as [weights|], (Main.tokenizer_pkl env) as [[tok|]|],
    (Main.max_length_pkl env) as [[ml|]|]; try done.
  by rewrite Hbuild.
Qed.

(** X15. [predict_caption] reports a caption exactly when the tokenizer,
    the max length and the model weights are readable, the query image can
    be processed, the feature model name is one [FeatureExtractor] accepts,
    its base model loads and the network can be built. An exception leaves
    it exactly when the three files are there and the two pickles load, but
    the name is not accepted (the [ValueError] is not caught), the base
    model does not load or the network cannot be built: the decoding loop
    itself never fails, whatever index the model predicts and also for a max
    length of 0. With the three files there and a name that lowercases to
    neither "vgg16" nor "resnet50", the call ends in that exception, or
    before it with the diagnostic of a pickle that does not load. *)
Theorem predict_caption_succeeds feature_model_name keras (env : @Main.Environment F) :
  ((exists final_caption,
      Main.predict_caption_named feature_model_name keras
        model_path tokenizer_path max_length_path image_path env
      = Main.Caption final_caption)
   <-> exists tokenizer max_length model image_feature extractor,
         Main.tokenizer_pkl env = Some (Some tokenizer)
         /\ Main.max_length_pkl env = Some (Some max_length)
         /\ Main.model_h5 env = Some (Some model)
         /\ Main.query_image env = Some (Some image_feature)
         /\ FeatureExtractor.new feature_model_name = Some extractor
         /\ Main.base_model_loads keras (FeatureExtractor.base_model extractor) = true
         /\ Main.create_model_builds keras (FeatureExtractor.get_output_dim extractor)
              (length (Keras.word_index tokenizer) + 1) max_length = true)
  /\ (Main.predict_caption_named feature_model_name keras
        model_path tokenizer_path max_length_path image_path env
      = Main.Raised
      <-> exists weights tokenizer max_length,
            Main.model_h5 env = Some weights
            /\ Main.tokenizer_pkl env = Some (Some tokenizer)
            /\ Main.max_length_pkl env = Some (Some max_length)
            /\ (FeatureExtractor.new feature_model_name = None
                \/ exists extractor,
                     FeatureExtractor.new feature_model_name = Some extractor
                     /\ (Main.base_model_loads keras (FeatureExtractor.base_model extractor)
                         = false
                         \/ Main.create_model_builds keras
                              (FeatureExtractor.get_output_dim extractor)
                              (length (Keras.word_index tokenizer) + 1) max_length
                            = false)))
  /\ (Py.lower feature_model_name <> "vgg16" ->
      Py.lower feature_model_name <> "resnet50" ->
      Main.tokenizer_pkl env <> None -> Main.max_length_pkl env <> None ->
      Main.model_h5 env <> None ->
      Main.predict_caption_named feature_model_name keras
        model_path tokenizer_path max_length_path image_path env
      = Main.Raised
      \/ Main.predict_caption_named feature_model_name keras
           model_path tokenizer_path max_length_path image_path env
         = Main.Failed "Error loading tokenizer or max_length").
Proof.
  assert (Py.lower feature_model_name <> "vgg16" ->
          Py.lower feature_model_name <> "resnet50" ->
          FeatureExtractor.new feature_model_name = None) as Hname.
  { intros Hv Hr. unfold FeatureExtractor.new.
    by rewrite decide_False, decide_False by done. }
  unfold Main.predict_caption_named.
  destruct (Main.model_h5 env) as [weights|] eqn:Hweights.
  2:{ split; [|split]; [split|split|by intros].
      - by intros [? ?].
      - intros (? & ? & ? & ? & ? & ? & ? & ? & ?). congruence.
      - done.
      - intros (? & ? & ? & ? & ?). congruence. }
  destruct (Main.tokenizer_pkl env) as [tok|] eqn:Htok.
  2:{ split; [|split]; [split|split|by intros].
      - by intros [? ?].
      - intros (? & ? & ? & ? & ? & ? & ? & ? & ?). congruence.
      - done.
      - intros (? & ? & ? & ? & ? & ?). congruence. }
  destruct (Main.max_length_pkl env) as [ml|] eqn:Hml.
  2:{ split; [|split]; [split|split|by intros].
      - by intros [? ?].
      - intros (? & ? & ? & ? & ? & ? & ? & ? & ?). congruence.
      - done.
      - intros (? & ? & ? & ? & ? & ? & ?). congruence. }
  destruct tok as [tok|].
  2:{ split; [|split]; [split|split|by right].
      - by intros [? ?].
      - intros (? & ? & ? & ? & ? & ? & ? & ? & ?). congruence.
      - done.
      - intros (? & ? & ? & ? & ? & ? & ?). congruence. }
  destruct ml as [ml|].
  2:{ split; [|split]; [split|split|by right].
      - by intros [? ?].
      - intros (? & ? & ? & ? & ? & ? & ? & ? & ?). congruence.
      - done.
      - intros (? & ? & ? & ? & ? & ? & ?). congruence. }
  destruct (FeatureExtractor.new feature_model_name) as [extractor|] eqn:Hnew.
  2:{ split; [|split]; [split|split|intros; by left].
      - by intros [? ?].
      - intros (? & ? & ? & ? & ? & ? & ? & ? & ? & ? & ?). congruence.
      - intros _. exists weights, tok, ml. by repeat split; [..|left].
      - done. }
  split; [|split]; [| |intros Hv Hr; specialize (Hname Hv Hr); congruence].
  - destruct (Main.base_model_loads keras _) eqn:Hloads; cbn [andb].
    2:{ split; [by intros [? ?]|].
        intros (t & m & ? & ? & e & _ & _ & _ & _ & [= <-] & ? & _). congruence. }
    destruct (Main.create_model_builds keras _ _ _) eqn:Hbuild.
    2:{ split; [by intros [? ?]|].
        intros (t & m & ? & ? & e & [= <-] & [= <-] & _ & _ & [= <-] & _ & ?).
        congruence. }
    destruct weights as [model|].
    2:{ split; [by intros [? ?]|].
        intros (? & ? & ? & ? & ? & _ & _ & ? & _). congruence. }
    destruct (Main.query_image env) as [[feat|]|] eqn:Himg.
    2,3: (split; [by intros [? ?]|]; intros (? & ? & ? & ? & ? & _ & _ & _ & ? & _);
          congruence).
    destruct (generate_caption_some model tok feat ml) as [text ->].
    split; [|by eauto]. intros _. by exists tok, ml, model, feat, extractor.
  - destruct (Main.base_model_loads keras _) eqn:Hloads; cbn [andb].
    2:{ split; [|done]. intros _. exists weights, tok, ml.
        repeat split. right. exists extractor. split; [done|by left]. }
    destruct (Main.create_model_builds keras _ _ _) eqn:Hbuild.
    + split.
      * destruct weights as [model|]; [|done].
        destruct (Main.query_image env) as [[feat|]|]; [|done..].
        by destruct (generate_caption_some model tok feat ml) as [text ->].
      * intros (? & t & m & _ & [= <-] & [= <-] & [?|(e & [= <-] & [?|?])]); congruence.
    + split; [|done]. intros _. exists weights, tok, ml.
      repeat split. right. exists extractor. split; [done|by right].
Qed.


End decoder_more.

(** The theorem at a run that predicts "cat" and then the end marker. *)
Lemma generate_caption_spells_trace_witness :
  "startseq cat endseq" = spelled tokenizer0 "startseq" [3; 4].
Proof.
  apply (generate_caption_spells_trace cat_then_end tokenizer0 tt 4). reflexivity.
Defined.

(** The theorem at two models that agree on rows of three cells only. *)
Lemma generate_caption_fixed_length_witness :
  Main.generate_caption_run always_zero tokenizer0 tt 3
  = Main.generate_caption_run zero_on_three tokenizer0 tt 3.
Proof.
  apply (generate_caption_fixed_length always_zero zero_on_three tokenizer0 tt 3).
  intros row Hrow. unfold always_zero, zero_on_three. rewrite Hrow. reflexivity.
Defined.


(** ** The embedding cache and the feature extractor *)

Section feature_facts.
Context {F : Type}.

Lemma extract_all_get_from (embed : string -> option F) ids img : forall acc,
  Dict.get img
    (foldl (fun all_features img_id =>
              match embed img_id with
              | Some feature => Dict.set img_id feature all_features
              | None => all_features
              end) acc ids)
  = if decide (img ∈ ids)
    then match embed img with Some f => Some f | None => Dict.get img acc end
    else Dict.get img acc.
Proof.
  induction ids as [|x ids IH]; intros acc; cbn [foldl].
  - rewrite decide_False by apply not_elem_of_nil. done.
  - rewrite IH. destruct (decide (x = img)) as [->|Hne].
    + rewrite (decide_True (P := img ∈ img :: ids)) by left.
      destruct (embed img) as [f|] eqn:Hf.
      * rewrite get_set_same. by destruct (decide (img ∈ ids)).
      * by destruct (decide (img ∈ ids)).
    + assert (Dict.get img (match embed x with
                            | Some feature => Dict.set x feature acc
                            | None => acc
                            end) = Dict.get img acc) as ->.
      { destruct (embed x); [by apply get_set_ne|done]. }
      destruct (decide (img ∈ ids)) as [Hin|Hin].
      * by rewrite decide_True by by right.
      * rewrite decide_False; [done|]. by intros [?|?]%elem_of_cons.
Qed.

Lemma extract_all_lookup (embed : string -> option F) (image_ids : list string) img :
  Dict.get img (Main.extract_all embed image_ids)
  = if decide (img ∈ image_ids) then embed img else None.
Proof.
  unfold Main.extract_all. rewrite extract_all_get_from.
  destruct (decide (img ∈ image_ids)); [|done]. by destruct (embed img).
Qed.

(** X17. The extraction loop of [train_model] caches the feature of every
    listed image whose processing succeeds, and nothing else: an image whose
    processing raises is skipped without ending the loop, and an image that
    is not listed has no entry. *)
Theorem extract_all_get (embed : string -> option F) (image_ids : list string) :
  (forall img,
     Dict.get img (Main.extract_all embed image_ids)
     = if decide (img ∈ image_ids) then embed img else None)
  /\ (forall img,
        img ∈ Dict.keys (Main.extract_all embed image_ids)
        <-> img ∈ image_ids /\ is_Some (embed img)).
Proof.
  split; [apply extract_all_lookup|].
  intros img. rewrite <- mem_keys. unfold Dict.mem.
  rewrite bool_decide_eq_true, extract_all_lookup.
  case_decide; [tauto|]. split; [intros [f Hf]; discriminate Hf|tauto].
Qed.

Lemma handed_over_keys (all_features : Dict.t string F) path fs img :
  img ∈ Dict.keys (frame_entry <$> cached all_features
                     (DataLoader.clean_descriptions (DataLoader.load_descriptions path fs).1))
  <-> img ∈ Dict.keys (DataLoader.load_descriptions path fs).1
      /\ is_Some (Dict.get img all_features).
Proof.
  rewrite <- (clean_descriptions_keys (DataLoader.load_descriptions path fs).1 img).
  assert (is_Some (Dict.get img all_features) <-> Dict.mem img all_features = true) as ->
    by (unfold Dict.mem; by rewrite bool_decide_eq_true).
  split.
  - intros ([k dl] & Hk & (l & Hl & Hm & _)%elem_of_framed)%list_elem_of_fmap.
    cbn in Hk. subst k. split; [|done]. apply list_elem_of_fmap. by exists (img, l).
  - intros [([k l] & Hk & Hl)%list_elem_of_fmap Hm]. cbn in Hk. subst k.
    apply list_elem_of_fmap. exists (img, frame <$> l). split; [done|].
    apply elem_of_framed. by exists l.
Qed.

(** X18. Which images are trained on depends on the features file. When
    there is none, the images handed to the generator are the listed images
    whose processing succeeds and that have a caption. When there is one, it
    is used as it is: they are the images of the file that have a caption,
    and an image added since, with captions or not, is left out. *)
Theorem training_set_of_cache features_pkl (embed : string -> option F) listing
    all_features path fs tokenizer max_length vocab_size filtered image_ids img :
  Main.load_or_extract features_pkl embed listing = Some all_features ->
  Main.train_model all_features path fs
  = Main.Fits tokenizer max_length vocab_size filtered image_ids ->
  (features_pkl = None ->
   (img ∈ image_ids
    <-> img ∈ Dict.keys (DataLoader.load_descriptions path fs).1
        /\ img ∈ listing /\ is_Some (embed img)))
  /\ (forall cache,
        features_pkl = Some (Some cache) ->
        (img ∈ image_ids
         <-> img ∈ Dict.keys (DataLoader.load_descriptions path fs).1
             /\ is_Some (Dict.get img cache))).
Proof.
  intros Hload (_ & _ & _ & -> & -> & _)%train_model_fits.
  split.
  - intros ->. cbn in Hload. injection Hload as <-.
    rewrite handed_over_keys, extract_all_lookup.
    case_decide; [tauto|].
    split; [intros [_ [f Hf]]; discriminate Hf|tauto].
  - intros cache ->. cbn in Hload. injection Hload as <-. apply handed_over_keys.
Qed.

End feature_facts.

(** X19. The captions of an image without embedding still count for the
    tokenizer, the max length and the vocabulary size, although the image
    is not trained on: when [train_model] goes on, such an image is not
    among the identifiers handed to the generator, and yet every token of
    each of its framed captions has an index of its own in the tokenizer,
    from 1 and below the vocabulary size, and the max length is at least the
    number of tokens of each of them. *)
Theorem vocabulary_ignores_cache {F : Type} (all_features : Dict.t string F)
    path fs tokenizer max_length vocab_size filtered image_ids img desc_list desc :
  Main.train_model all_features path fs
  = Main.Fits tokenizer max_length vocab_size filtered image_ids ->
  (img, desc_list)
  ∈ DataLoader.clean_descriptions (DataLoader.load_descriptions path fs).1 ->
  desc ∈ desc_list ->
  Dict.get img all_features = None ->
  (img ∉ image_ids)
  /\ Dict.get img filtered = None
  /\ (forall w, w ∈ Py.split (frame desc) ->
        exists i, Dict.get w (Keras.word_index tokenizer) = Some i
                  /\ 1 <= i < vocab_size
                  /\ Dict.get i (Keras.index_word tokenizer) = Some w)
  /\ length (Keras.texts_to_sequences tokenizer (frame desc)) = length (Py.split desc) + 2
  /\ length (Py.split desc) + 2 <= max_length.
Proof.
  intros (-> & -> & -> & -> & -> & _)%train_model_fits Hin Hdesc Hnone.
  assert (frame desc ∈ DataLoader.descriptions_to_lines
                         (DataLoader.clean_descriptions (DataLoader.load_descriptions path fs).1))
    as Hline by (apply elem_of_lines; by exists img, desc_list, desc).
  assert (img ∉ Dict.keys
                  (frame_entry <$> cached all_features
                     (DataLoader.clean_descriptions (DataLoader.load_descriptions path fs).1)))
    as Hout.
  { rewrite handed_over_keys. intros [_ [f Hf]]. congruence. }
  split; [done|]. split; [by apply get_None_keys|].
  pose proof (clean_text_words _ (cleaned_lines_clean _ _ Hline)) as Hwords.
  split; [|split].
  - intros w Hw. rewrite <- Hwords in Hw.
    destruct (fit_covers _ _ _ Hline Hw) as [i Hi]. exists i.
    pose proof (fit_index_range _ _ _ Hi). split; [done|]. split; [lia|].
    by apply fit_inverse.
  - destruct (fit_encodes _ _ Hline) as [-> _]. by rewrite Hwords, split_frame_length.
  - rewrite <- split_frame_length. by apply max_len_upper.
Qed.

(** X20. The feature model is chosen by name without regard to case:
    [FeatureExtractor] accepts exactly the names that lowercase to "vgg16",
    with 4096 features, or to "resnet50", with 2048, and raises for every
    other name. *)
Theorem feature_extractor_by_name (name : string) :
  FeatureExtractor.new (Py.lower name) = FeatureExtractor.new name
  /\ (forall extractor,
        FeatureExtractor.new name = Some extractor ->
        FeatureExtractor.model_name extractor = Py.lower name
        /\ (Py.lower name = "vgg16" /\ FeatureExtractor.get_output_dim extractor = 4096
            \/ Py.lower name = "resnet50"
               /\ FeatureExtractor.get_output_dim extractor = 2048))
  /\ (FeatureExtractor.new name = None
      <-> Py.lower name <> "vgg16" /\ Py.lower name <> "resnet50").
Proof.
  assert (Py.lower (Py.lower name) = Py.lower name) as Hidem.
  { unfold Py.lower. induction name as [|c s IH]; [done|]. cbn.
    by rewrite lower_char_idem, IH. }
  unfold FeatureExtractor.new. rewrite Hidem. split; [done|].
  destruct (decide (Py.lower name = "vgg16")) as [Hv|Hv].
  - split; [intros e [= <-]; cbn; by eauto|]. split; [done|]. by intros [? _].
  - destruct (decide (Py.lower name = "resnet50")) as [Hr|Hr].
    + split; [intros e [= <-]; cbn; by eauto|]. split; [done|]. by intros [_ ?].
    + split; [done|]. by split.
Qed.

(** The theorem at a first run over three listed images, one of which
    cannot be processed, with captions for the first only. *)
Lemma training_set_of_cache_witness :
  "img1.jpg" ∈ ["img1.jpg"]
  <-> "img1.jpg" ∈ Dict.keys (DataLoader.load_descriptions "captions.txt" captions1).1
      /\ "img1.jpg" ∈ ["img1.jpg"; "broken.jpg"; "img2.jpg"]
      /\ is_Some (embed1 "img1.jpg").
Proof.
  apply (proj1 (training_set_of_cache None embed1 ["img1.jpg"; "broken.jpg"; "img2.jpg"]
                  (Main.extract_all embed1 ["img1.jpg"; "broken.jpg"; "img2.jpg"])
                  "captions.txt" captions1 tokenizer1 5 6 [("img1.jpg", [line1])]
                  ["img1.jpg"] "img1.jpg" eq_refl eq_refl)).
  reflexivity.
Defined.

(** The theorem at a corpus of two captioned images with an embedding for
    the first only: the second is not trained on, and its caption of six
    words sets the max length to 8 and gives the tokenizer six of its words. *)
Lemma vocabulary_ignores_cache_witness :
  ("img2.jpg" ∉ ["img1.jpg"])
  /\ Dict.get "img2.jpg" [("img1.jpg", [line1])] = None
  /\ (forall w, w ∈ Py.split (frame "two dogs run in the park") ->
        exists i, Dict.get w (Keras.word_index tokenizer2) = Some i
                  /\ 1 <= i < 12
                  /\ Dict.get i (Keras.index_word tokenizer2) = Some w)
  /\ length (Keras.texts_to_sequences tokenizer2 (frame "two dogs run in the park"))
     = length (Py.split "two dogs run in the park") + 2
  /\ length (Py.split "two dogs run in the park") + 2 <= 8.
Proof.
  apply (vocabulary_ignores_cache cache1 "captions.txt" captions2 tokenizer2 8 12
           [("img1.jpg", [line1])] ["img1.jpg"] "img2.jpg"
           ["two dogs run in the park"] "two dogs run in the park").
  - vm_compute. reflexivity.
  - vm_compute. right. left.
  - left.
  - reflexivity.
Defined.

(** With that corpus the max length is more than any caption trained on
    has tokens. *)
Example train_model_second_image_counts :
  Main.train_model cache1 "captions.txt" captions2
  = Main.Fits tokenizer2 8 12 [("img1.jpg", [line1])] ["img1.jpg"].
Proof. vm_compute. reflexivity. Qed.

(** A name [FeatureExtractor] rejects ends [predict_caption] with the
    exception, in a models directory where an accepted name, in any case,
    gives a caption. *)
Example predict_caption_named_demo :
  Main.predict_caption_named "inception" keras_ok
    "m.h5" "t.pkl" "l.pkl" "q.jpg" no_cache = Main.Raised
  /\ Main.predict_caption_named "VGG16" keras_ok
       "m.h5" "t.pkl" "l.pkl" "q.jpg" no_cache = Main.Caption "cat".
Proof. split; vm_compute; reflexivity. Qed.

(** The theorem at a models directory that has everything and a name
    [FeatureExtractor] rejects: the call ends with the exception. *)
Lemma predict_caption_succeeds_witness :
  Main.predict_caption_named "inception" keras_ok "m.h5" "t.pkl" "l.pkl" "q.jpg" no_cache
  = Main.Raised.
Proof.
  apply (proj2 (proj1 (proj2 (predict_caption_succeeds "m.h5" "t.pkl" "l.pkl" "q.jpg"
                                "inception" keras_ok no_cache)))).
  eexists _, tokenizer0, 4.
  split; [reflexivity|]. split; [reflexivity|]. split; [reflexivity|].
  left. reflexivity.
Defined.
